(** * lightbrite-eq: the offline equalisation pipeline and its WAV encoder

    A shallow embedding of [src/components/AudioProcessor.tsx] and
    [src/filterConfig.ts].

    Conventions of the embedding.
    - A JavaScript number that holds a size, an index, a sample rate or a byte
      is an integer of [nat] or [Z]; every such quantity of the program stays
      far below 2^53, where the arithmetic of doubles on integers is exact.
    - A JavaScript number that holds an audio sample or a filter parameter is
      a [number]: NaN, an infinity, or a finite value kept as a rational.
      Samples are 32-bit floats (24 significant bits); clamping them and
      multiplying them by the 16-bit constants 0x8000 and 0x7FFF is exact in
      double precision, so the rational product is the double the program
      computes. The two zeros are one value: no operation used here tells
      them apart in its result.
    - An exception is [None] (or [Err]) in an error monad; a [for] loop is a
      fold over its index range that stops at the first exception.
    - The browser's Web Audio objects are not code of the repository. What
      the program needs of them is either written out where the Web Audio
      interface fixes it (graph construction, buffer shapes) or taken as a
      parameter of the class [WebAudio]. *)

From Stdlib Require Import ZArith QArith List String Ascii Lia Permutation Sorted Bool.
From stdpp Require Import base option list gmap.
Import ListNotations.

Local Open Scope nat_scope.

(** * The program

    ** JavaScript numbers *)

Inductive number : Type :=
| NaN
| Infinity (negative : bool)
| Finite (q : Q).

Definition Qlt_bool (p q : Q) : bool := negb (Qle_bool q p).

(** [x < y] of JavaScript: false as soon as one side is NaN. *)
Definition number_lt (x y : number) : bool :=
  match x, y with
  | NaN, _ | _, NaN => false
  | Infinity true, Infinity true => false
  | Infinity true, _ => true
  | _, Infinity true => false
  | Infinity false, _ => false
  | _, Infinity false => true
  | Finite p, Finite q => Qlt_bool p q
  end.

(** [Math.min(x, y)] and [Math.max(x, y)]: NaN if an argument is NaN. *)
Definition Math_min (x y : number) : number :=
  match x, y with
  | NaN, _ | _, NaN => NaN
  | _, _ => if number_lt y x then y else x
  end.

Definition Math_max (x y : number) : number :=
  match x, y with
  | NaN, _ | _, NaN => NaN
  | _, _ => if number_lt x y then y else x
  end.

(** [x * y]. *)
Definition number_mul (x y : number) : number :=
  match x, y with
  | NaN, _ | _, NaN => NaN
  | Finite p, Finite q => Finite (p * q)
  | Infinity s, Infinity t => Infinity (xorb s t)
  | Infinity s, Finite q | Finite q, Infinity s =>
      if Qeq_bool q 0 then NaN else Infinity (xorb s (Qlt_bool q 0))
  end.

Definition of_Z (z : Z) : number := Finite (inject_Z z).

(** The integral part of a number, rounding towards zero; NaN and the
    infinities give 0, as in the conversions to fixed-width integers. *)
Definition truncate (x : number) : Z :=
  match x with
  | NaN | Infinity _ => 0%Z
  | Finite q => Z.quot (Qnum q) (Z.pos (Qden q))
  end.

Definition ToUint8 (z : Z) : Z := (z mod 2 ^ 8)%Z.
Definition ToUint16 (z : Z) : Z := (z mod 2 ^ 16)%Z.
Definition ToUint32 (z : Z) : Z := (z mod 2 ^ 32)%Z.

Definition ToInt16 (x : number) : Z :=
  let int16bit := (truncate x mod 2 ^ 16)%Z in
  if (2 ^ 15 <=? int16bit)%Z then (int16bit - 2 ^ 16)%Z else int16bit.

(** ** ArrayBuffer and DataView

    The bytes of an [ArrayBuffer] are a list of integers of [0, 256); a
    [DataView] over the whole buffer is the same list. A setter whose bytes
    would not all fall inside the buffer throws a RangeError. *)

Definition ArrayBuffer (byteLength : nat) : list Z := repeat 0%Z byteLength.

(** The [n] low bytes of [v], least significant first. *)
Fixpoint le_bytes (n : nat) (v : Z) : list Z :=
  match n with
  | O => []
  | S n' => (v mod 256)%Z :: le_bytes n' (v / 256)%Z
  end.

Fixpoint write_bytes (view : list Z) (byteOffset : nat) (bs : list Z) : list Z :=
  match bs with
  | [] => view
  | b :: bs' => write_bytes (<[byteOffset := b]> view) (S byteOffset) bs'
  end.

Definition SetViewValue (view : list Z) (byteOffset : nat) (size : nat)
    (raw : Z) (littleEndian : bool) : option (list Z) :=
  if byteOffset + size <=? List.length view
  then Some (write_bytes view byteOffset
               (if littleEndian then le_bytes size raw else rev (le_bytes size raw)))
  else None.

Definition setUint8 (view : list Z) (byteOffset : nat) (value : Z) : option (list Z) :=
  SetViewValue view byteOffset 1 (ToUint8 value) true.

Definition setUint16 (view : list Z) (byteOffset : nat) (value : Z)
    (littleEndian : bool) : option (list Z) :=
  SetViewValue view byteOffset 2 (ToUint16 value) littleEndian.

Definition setUint32 (view : list Z) (byteOffset : nat) (value : Z)
    (littleEndian : bool) : option (list Z) :=
  SetViewValue view byteOffset 4 (ToUint32 value) littleEndian.

Definition setInt16 (view : list Z) (byteOffset : nat) (value : number)
    (littleEndian : bool) : option (list Z) :=
  SetViewValue view byteOffset 2 (ToInt16 value) littleEndian.

(** [for (let i = 0; i < n; i++) body]: the state after the last iteration,
    or the first exception. *)
Definition for_loop {S : Type} (n : nat) (body : nat -> S -> option S) (s : S) : option S :=
  fold_left (fun acc i => acc ≫= body i) (seq 0 n) (Some s).

(** [string.charCodeAt(i)] on the strings the program writes. *)
Definition charCodeAt (s : string) (i : nat) : Z :=
  match String.get i s with
  | Some c => Z.of_nat (nat_of_ascii c)
  | None => 0%Z
  end.

(** ** AudioBuffer *)

Record AudioBuffer : Type := mkAudioBuffer {
  buffer_sampleRate : Z;
  buffer_length : nat;
  buffer_channels : list (list number)
}.

Definition numberOfChannels (buffer : AudioBuffer) : nat :=
  List.length (buffer_channels buffer).

(** Every channel of an [AudioBuffer] holds [buffer_length] frames. *)
Definition wf_buffer (buffer : AudioBuffer) : Prop :=
  Forall (fun ch => List.length ch = buffer_length buffer) (buffer_channels buffer).

(** [buffer.copyFromChannel(destination, channelNumber, 0)]: the frames of the
    channel overwrite the start of [destination], as many as both hold; an
    IndexSizeError when there is no such channel. *)
Definition copyFromChannel (buffer : AudioBuffer) (destination : list number)
    (channelNumber : nat) : option (list number) :=
  match buffer_channels buffer !! channelNumber with
  | None => None
  | Some src =>
      Some (take (List.length destination) src ++ drop (List.length src) destination)
  end.

(** [typedArray[i]]; a read past the end is [undefined], NaN as a number. *)
Definition array_get (a : list number) (i : nat) : number :=
  match a !! i with
  | Some x => x
  | None => NaN
  end.

(** ** audioBufferToWav *)

(** Lines 224 and 225: the clamped sample and its scaled value. *)
Definition clamp_sample (x : number) : number :=
  Math_max (of_Z (-1)) (Math_min (of_Z 1) x).

Definition scale_sample (sample : number) : number :=
  if number_lt sample (of_Z 0)
  then number_mul sample (of_Z 0x8000)
  else number_mul sample (of_Z 0x7FFF).

Definition writeString (view : list Z) (offset : nat) (string : string) : option (list Z) :=
  for_loop (String.length string)
    (fun i view => setUint8 view (offset + i) (charCodeAt string i)) view.

Definition audioBufferToWav (buffer : AudioBuffer) : option (list Z) :=
  let numChannels := numberOfChannels buffer in
  let sampleRate := buffer_sampleRate buffer in
  let format := 1%Z in
  let bitDepth := 16 in
  let bytesPerSample := bitDepth / 8 in
  let blockAlign := numChannels * bytesPerSample in
  let wav := ArrayBuffer (44 + buffer_length buffer * blockAlign) in
  let view := wav in
  view ← writeString view 0 "RIFF";
  view ← setUint32 view 4 (Z.of_nat (36 + buffer_length buffer * blockAlign)) true;
  view ← writeString view 8 "WAVE";
  view ← writeString view 12 "fmt ";
  view ← setUint32 view 16 16 true;
  view ← setUint16 view 20 format true;
  view ← setUint16 view 22 (Z.of_nat numChannels) true;
  view ← setUint32 view 24 sampleRate true;
  view ← setUint32 view 28 (sampleRate * Z.of_nat blockAlign) true;
  view ← setUint16 view 32 (Z.of_nat blockAlign) true;
  view ← setUint16 view 34 (Z.of_nat bitDepth) true;
  view ← writeString view 36 "data";
  view ← setUint32 view 40 (Z.of_nat (buffer_length buffer * blockAlign)) true;
  let offset := 44 in
  let channelData := repeat (of_Z 0) (buffer_length buffer) in
  '(_, view) ← for_loop numChannels
    (fun channel '(channelData, view) =>
       channelData ← copyFromChannel buffer channelData channel;
       view ← for_loop (buffer_length buffer)
         (fun i view =>
            let sample := clamp_sample (array_get channelData i) in
            let int16 := scale_sample sample in
            setInt16 view (offset + (i * blockAlign) + (channel * bytesPerSample)) int16 true)
         view;
       Some (channelData, view))
    (channelData, view);
  Some view.

(** ** filterConfig.ts *)

Inductive FilterType : Type := peaking | lowshelf | highshelf | lowpass | highpass.

(** The field [Q] of the source is [Q'] here: [Q] names the rationals. A
    numeric literal of the source is the rational it denotes. *)
Record FilterConfig : Type := mkFilterConfig {
  type : FilterType;
  freq : Q;
  gain : Q;
  Q' : option Q
}.

Definition filters : list FilterConfig := [
  {| type := peaking; (* pk12 *)
     freq := 170;
     gain := 9.9;
     Q' := Some 1.76 |};
  {| type := peaking; (* pk12 *)
     freq := 662;
     gain := -8.0;
     Q' := Some 3.0 |};
  {| type := peaking; (* pk12 *)
     freq := 3000;
     gain := -11.2;
     Q' := Some 2.76 |};
  {| type := highshelf; (* hs12 *)
     freq := 7410;
     gain := 10;
     Q' := None |}
]%Q.

(** ** JavaScript arrays of filter configurations

    An array is an object: a binding holds a reference to it, and a method
    such as [sort] changes the object every holder of the reference sees.
    The store maps references to the contents of the arrays. The module-level
    [filters] is the array at [filters_ref]. *)

Abbreviation Store := (gmap nat (list FilterConfig)).

Definition filters_ref : nat := 0.

Definition initial_store : Store := {[ filters_ref := filters ]}.

Definition array_contents (a : nat) (σ : Store) : list FilterConfig :=
  default [] (σ !! a).

(** [[...a]]: a new array with the elements of [a]. *)
Definition array_spread (a : nat) (σ : Store) : nat * Store :=
  let copy := fresh (dom σ) in
  (copy, <[copy := array_contents a σ]> σ).

(** [Array.prototype.sort] is a stable comparison sort (ECMAScript 2019):
    [comparefn x y > 0] puts [y] first, any other result keeps [x] before
    [y]. Insertion from the right is such a sort. *)
Fixpoint sort_insert {A : Type} (comparefn : A -> A -> Q) (x : A) (l : list A) : list A :=
  match l with
  | [] => [x]
  | y :: l' =>
      if Qlt_bool 0 (comparefn x y) then y :: sort_insert comparefn x l' else x :: l
  end.

Definition Array_sort {A : Type} (comparefn : A -> A -> Q) (l : list A) : list A :=
  fold_right (sort_insert comparefn) [] l.

(** [a.sort(comparefn)]: sorts the array in place and returns its reference. *)
Definition array_sort (comparefn : FilterConfig -> FilterConfig -> Q) (a : nat)
    (σ : Store) : nat * Store :=
  (a, alter (Array_sort comparefn) a σ).

(** ** The Web Audio objects the program uses

    A context holds its nodes, numbered in the order of their creation (the
    destination is node 0), and the connections made between them. *)

Inductive AudioNode : Type :=
| AudioDestinationNode
| AudioBufferSourceNode (buffer : option AudioBuffer) (started : bool)
| BiquadFilterNode (type : FilterType) (frequency gain Q : Q).

Record OfflineAudioContext : Type := mkOfflineAudioContext {
  ctx_numberOfChannels : nat;
  ctx_length : nat;
  ctx_sampleRate : Z;
  ctx_nodes : list AudioNode;
  ctx_connections : list (nat * nat)
}.

Definition destination : nat := 0.

Inductive DOMException : Type :=
| NotSupportedError
| EncodingError
| NotReadableError
| RangeError.

Inductive Result (A : Type) : Type :=
| Ok (a : A)
| Err (e : DOMException).
Arguments Ok {A} a.
Arguments Err {A} e.

Definition signal : Type := list (list number).

(** What the browser decides: the largest channel count and the range of
    sample rates it renders; [biquad], the response of a BiquadFilterNode on
    one channel, from its four parameters and the sample rate, one output
    frame per input frame; [mix], the sum of the connections into an input,
    which is the connection when there is one; [remix], a signal brought to
    the channel count of the destination, itself when it has that count;
    [resample], a buffer played at another rate; and the decoder. *)
Class WebAudio : Type := {
  maxChannelCount : nat;
  minSampleRate : Z;
  maxSampleRate : Z;
  biquad : FilterType -> Q -> Q -> Q -> Z -> list number -> list number;
  biquad_length : forall t f g q r xs,
    List.length (biquad t f g q r xs) = List.length xs;
  mix : list signal -> signal;
  mix_one : forall s, mix [s] = s;
  remix : nat -> signal -> signal;
  remix_length : forall c s, List.length (remix c s) = c;
  remix_same : forall c s, List.length s = c -> remix c s = s;
  resample : Z -> Z -> signal -> signal;
  decodeAudioData : list Z -> Result AudioBuffer
}.

(** The nominal ranges of the arguments of the constructor
    [OfflineAudioContext(numberOfChannels, length, sampleRate)]: at least one
    channel and one frame, and no more channels and no other rate than the
    browser renders. *)
Definition supports `{WebAudio} (numberOfChannels length : nat) (sampleRate : Z) : bool :=
  (1 <=? numberOfChannels) && (numberOfChannels <=? maxChannelCount)
  && (1 <=? length)
  && (minSampleRate <=? sampleRate)%Z && (sampleRate <=? maxSampleRate)%Z.

Definition with_nodes (ctx : OfflineAudioContext) (nodes : list AudioNode) :=
  mkOfflineAudioContext (ctx_numberOfChannels ctx) (ctx_length ctx) (ctx_sampleRate ctx)
    nodes (ctx_connections ctx).

Definition new_node (ctx : OfflineAudioContext) (node : AudioNode) : OfflineAudioContext * nat :=
  (with_nodes ctx (ctx_nodes ctx ++ [node]), List.length (ctx_nodes ctx)).

Definition update_node (ctx : OfflineAudioContext) (n : nat) (f : AudioNode -> AudioNode) :=
  with_nodes ctx (alter f n (ctx_nodes ctx)).

(** The constructor throws NotSupportedError for an argument outside its
    nominal range; the new context holds its destination alone. *)
Definition new_OfflineAudioContext `{WebAudio} (numberOfChannels length : nat)
    (sampleRate : Z) : Result OfflineAudioContext :=
  if supports numberOfChannels length sampleRate
  then Ok (mkOfflineAudioContext numberOfChannels length sampleRate [AudioDestinationNode] [])
  else Err NotSupportedError.

Definition createBufferSource (ctx : OfflineAudioContext) : OfflineAudioContext * nat :=
  new_node ctx (AudioBufferSourceNode None false).

(** [source.buffer = audioBuffer] and [source.start(0)]. *)
Definition set_buffer (ctx : OfflineAudioContext) (source : nat) (audioBuffer : AudioBuffer) :=
  update_node ctx source (fun node =>
    match node with
    | AudioBufferSourceNode _ started => AudioBufferSourceNode (Some audioBuffer) started
    | _ => node
    end).

Definition start (ctx : OfflineAudioContext) (source : nat) :=
  update_node ctx source (fun node =>
    match node with
    | AudioBufferSourceNode buffer _ => AudioBufferSourceNode buffer true
    | _ => node
    end).

(** A new BiquadFilterNode has type lowpass, frequency 350, gain 0 and Q 1. *)
Definition createBiquadFilter (ctx : OfflineAudioContext) : OfflineAudioContext * nat :=
  new_node ctx (BiquadFilterNode lowpass 350 0 1).

Definition set_type (ctx : OfflineAudioContext) (filter : nat) (t : FilterType) :=
  update_node ctx filter (fun node =>
    match node with BiquadFilterNode _ f g q => BiquadFilterNode t f g q | _ => node end).

Definition set_frequency (ctx : OfflineAudioContext) (filter : nat) (value : Q) :=
  update_node ctx filter (fun node =>
    match node with BiquadFilterNode t _ g q => BiquadFilterNode t value g q | _ => node end).

Definition set_gain (ctx : OfflineAudioContext) (filter : nat) (value : Q) :=
  update_node ctx filter (fun node =>
    match node with BiquadFilterNode t f _ q => BiquadFilterNode t f value q | _ => node end).

Definition set_Q (ctx : OfflineAudioContext) (filter : nat) (value : Q) :=
  update_node ctx filter (fun node =>
    match node with BiquadFilterNode t f g _ => BiquadFilterNode t f g value | _ => node end).

(** [a.connect(b)]. *)
Definition connect (ctx : OfflineAudioContext) (a b : nat) : OfflineAudioContext :=
  mkOfflineAudioContext (ctx_numberOfChannels ctx) (ctx_length ctx) (ctx_sampleRate ctx)
    (ctx_nodes ctx) (ctx_connections ctx ++ [(a, b)]).

(** The signal a node puts out: a source that was started plays its buffer,
    a filter filters every channel of its input with its own parameters, the
    destination takes its input at the channel count of the context. The
    input of a node mixes the outputs of the nodes connected to it. [fuel]
    bounds the depth of the graph; the number of nodes is enough when the
    graph has no cycle. *)
Fixpoint node_output `{WebAudio} (fuel : nat) (ctx : OfflineAudioContext) (n : nat) : signal :=
  match fuel with
  | O => []
  | S fuel' =>
      let input :=
        mix (map (fun e => node_output fuel' ctx e.1)
               (filter (fun e => e.2 =? n) (ctx_connections ctx))) in
      match ctx_nodes ctx !! n with
      | Some AudioDestinationNode => remix (ctx_numberOfChannels ctx) input
      | Some (AudioBufferSourceNode (Some buffer) true) =>
          if (buffer_sampleRate buffer =? ctx_sampleRate ctx)%Z
          then buffer_channels buffer
          else resample (buffer_sampleRate buffer) (ctx_sampleRate ctx)
                 (buffer_channels buffer)
      | Some (AudioBufferSourceNode _ _) => []
      | Some (BiquadFilterNode t f g q) => map (biquad t f g q (ctx_sampleRate ctx)) input
      | None => []
      end
  end.

(** The first [length] frames of a channel, silence after its end. *)
Definition fit_length (length : nat) (ch : list number) : list number :=
  take length ch ++ repeat (of_Z 0) (length - List.length ch).

(** [ctx.startRendering()]: the buffer of the shape given to the constructor
    that holds what reaches the destination. *)
Definition startRendering `{WebAudio} (ctx : OfflineAudioContext) : Result AudioBuffer :=
  Ok (mkAudioBuffer (ctx_sampleRate ctx) (ctx_length ctx)
        (map (fit_length (ctx_length ctx))
           (node_output (List.length (ctx_nodes ctx)) ctx destination))).

(** ** AudioProcessor.tsx: the component *)

(** 1GB size limit *)
Definition MAX_FILE_SIZE : Z := 1024 * 1024 * 1024. (* 1GB in bytes *)

(** Supported audio MIME types *)
Definition SUPPORTED_AUDIO_TYPES : list string := [
  "audio/wav";
  "audio/mpeg";
  "audio/mp3";
  "audio/ogg";
  "audio/aac";
  "audio/m4a";
  "audio/x-m4a";
  "audio/mp4";
  "audio/webm";
  "audio/flac"
]%string.

Definition includes (l : list string) (s : string) : bool :=
  existsb (String.eqb s) l.

Definition createFilter (ctx : OfflineAudioContext) (config : FilterConfig)
    : OfflineAudioContext * nat :=
  let '(ctx, filter) := createBiquadFilter ctx in
  let ctx := set_type ctx filter (type config) in
  let ctx := set_frequency ctx filter (freq config) in
  let ctx := set_gain ctx filter (gain config) in
  let ctx := match Q' config with
             | Some q => set_Q ctx filter q
             | None => ctx
             end in
  (ctx, filter).

Definition processAudio `{WebAudio} (audioBuffer : AudioBuffer) (σ : Store)
    : Result AudioBuffer * Store :=
  match new_OfflineAudioContext
          (numberOfChannels audioBuffer)
          (buffer_length audioBuffer)
          (buffer_sampleRate audioBuffer) with
  | Err e => (Err e, σ)
  | Ok offlineCtx =>
      let '(offlineCtx, source) := createBufferSource offlineCtx in
      let offlineCtx := set_buffer offlineCtx source audioBuffer in
      (* Sort filters by frequency *)
      let '(copy, σ) := array_spread filters_ref σ in
      let '(sortedFilters, σ) := array_sort (fun a b => freq a - freq b)%Q copy σ in
      (* Create and connect filters in series *)
      let '(offlineCtx, currentNode) :=
        fold_left
          (fun '(offlineCtx, currentNode) filterConfig =>
             let '(offlineCtx, filter) := createFilter offlineCtx filterConfig in
             let offlineCtx := connect offlineCtx currentNode filter in
             (offlineCtx, filter))
          (array_contents sortedFilters σ)
          (offlineCtx, source) in
      (* Connect the last filter to the destination *)
      let offlineCtx := connect offlineCtx currentNode destination in
      let offlineCtx := start offlineCtx source in
      (startRendering offlineCtx, σ)
  end.

(** The new file name of lines 115 to 118. [lastIndexOf] gives -1 when the
    string holds no such character. *)
Fixpoint lastIndexOf_from (s : string) (c : ascii) (i : nat) (found : Z) : Z :=
  match s with
  | EmptyString => found
  | String a s' =>
      lastIndexOf_from s' c (S i) (if Ascii.eqb a c then Z.of_nat i else found)
  end.

Definition lastIndexOf (s : string) (c : ascii) : Z := lastIndexOf_from s c 0 (-1)%Z.

(** [s.slice(start)] and [s.slice(0, end)] for indices within the string. *)
Definition slice_from (s : string) (start : nat) : string :=
  String.substring start (String.length s - start) s.

Definition slice_to (s : string) (end_ : nat) : string :=
  String.substring 0 end_ s.

Definition newFileName (name : string) : string :=
  let lastDotIndex := lastIndexOf name "."%char in
  if negb (lastDotIndex =? -1)%Z
  then (slice_to name (Z.to_nat lastDotIndex) ++ "-EQ" ++ slice_from name (Z.to_nat lastDotIndex))%string
  else (name ++ "-EQ")%string.

Record File : Type := mkFile {
  name : string;
  file_type : string;
  size : Z;
  arrayBuffer : Result (list Z)
}.

(** The state of the component: its four state variables and its reference
    to an AudioContext, created at the first use. *)
Record ComponentState : Type := mkComponentState {
  isDragging : bool;
  fileName : string;
  isProcessing : bool;
  error : string;
  audioContextRef : bool
}.

Definition setIsDragging (st : ComponentState) (v : bool) :=
  mkComponentState v (fileName st) (isProcessing st) (error st) (audioContextRef st).
Definition setFileName (st : ComponentState) (v : string) :=
  mkComponentState (isDragging st) v (isProcessing st) (error st) (audioContextRef st).
Definition setIsProcessing (st : ComponentState) (v : bool) :=
  mkComponentState (isDragging st) (fileName st) v (error st) (audioContextRef st).
Definition setError (st : ComponentState) (v : string) :=
  mkComponentState (isDragging st) (fileName st) (isProcessing st) v (audioContextRef st).
Definition setAudioContextRef (st : ComponentState) (v : bool) :=
  mkComponentState (isDragging st) (fileName st) (isProcessing st) (error st) v.

(** The file offered for download: the anchor's [download] attribute and the
    Blob behind its [href]. *)
Record Download : Type := mkDownload {
  download : string;
  blob_type : string;
  blob_bytes : list Z
}.

(** [handleDrop] for the first dropped file, if any: the state of the
    component and of the arrays when the handler is done, and the download
    it triggered. The handler runs alone: no other event comes between its
    awaits. *)
Definition handleDrop `{WebAudio} (file : option File) (st : ComponentState) (σ : Store)
    : ComponentState * Store * option Download :=
  let st := setIsDragging st false in
  let st := setError st "" in
  match file with
  | None => (st, σ, None)
  | Some file =>
      (* Check file type *)
      if negb (includes SUPPORTED_AUDIO_TYPES (file_type file)) then
        (setError st "Unsupported file type. Please use a standard audio format (WAV, MP3, OGG, AAC, M4A, FLAC)",
         σ, None)
      (* Check file size *)
      else if (size file >? MAX_FILE_SIZE)%Z then
        (setError st "File size must be less than 1GB", σ, None)
      else
        let st := setFileName st (name file) in
        let st := setIsProcessing st true in
        let failed st σ :=
          (setIsProcessing
             (setError st "Error processing audio file. Make sure the file is a valid audio format.")
             false, σ, None) in
        match arrayBuffer file with
        | Err _ => failed st σ
        | Ok bytes =>
            let st := setAudioContextRef st true in
            match decodeAudioData bytes with
            | Err _ => failed st σ
            | Ok audioBuffer =>
                match processAudio audioBuffer σ with
                | (Err _, σ) => failed st σ
                | (Ok processedBuffer, σ) =>
                    (* Convert to WAV and download *)
                    match audioBufferToWav processedBuffer with
                    | None => failed st σ
                    | Some wav =>
                        (setIsProcessing st false, σ,
                         Some (mkDownload (newFileName (name file)) (file_type file) wav))
                    end
                end
            end
        end
  end.

(** A browser to run the model on: it renders up to 32 channels at 3 to
    768 kHz, its filters pass their input through, and it decodes a file as
    one channel at 44100 Hz with a frame per byte. *)
#[refine] Instance sample_browser : WebAudio := {|
  maxChannelCount := 32;
  minSampleRate := 3000;
  maxSampleRate := 768000;
  biquad := fun _ _ _ _ _ xs => xs;
  mix := fun l => match l with [s] => s | _ => [] end;
  remix := fun c s => if List.length s =? c then s else repeat [] c;
  resample := fun _ _ s => s;
  decodeAudioData := fun bytes =>
    Ok (mkAudioBuffer 44100 (List.length bytes)
          [map (fun b => Finite (inject_Z b / 128 - 1)) bytes])
|}.
Proof.
  - reflexivity.
  - reflexivity.
  - intros c s. destruct (Nat.eqb_spec (List.length s) c); [assumption | apply repeat_length].
  - intros c s Hs. apply Nat.eqb_eq in Hs. now rewrite Hs.
Defined.




(** * The specification

    ** The encoder (section 4.4) *)

Definition char_codes (s : string) : list Z :=
  map (fun c => Z.of_nat (nat_of_ascii c)) (list_ascii_of_string s).

(** The header of the specification, field by field (section 4.4). *)
Definition u16le (v : Z) : list Z := [v mod 256; v / 256 mod 256]%Z.

Definition u32le (v : Z) : list Z :=
  [v mod 256; v / 256 mod 256; v / 65536 mod 256; v / 16777216 mod 256]%Z.

Definition wav_header (channelCount frameCount : nat) (sampleRate : Z) : list Z :=
  let blockAlign := channelCount * 2 in
  let dataBytes := frameCount * blockAlign in
  char_codes "RIFF" ++ u32le (Z.of_nat (36 + dataBytes)) ++ char_codes "WAVE" ++
  char_codes "fmt " ++ u32le 16 ++ u16le 1 ++ u16le (Z.of_nat channelCount) ++
  u32le sampleRate ++ u32le (sampleRate * Z.of_nat blockAlign) ++
  u16le (Z.of_nat blockAlign) ++ u16le 16 ++
  char_codes "data" ++ u32le (Z.of_nat dataBytes).

(** The 16-bit value of lines 224 to 226 for one sample, and the sample of
    channel [c] at frame [i]. *)
Definition sample_to_int16 (x : number) : Z :=
  ToInt16 (scale_sample (clamp_sample x)).

Definition sample_at (buffer : AudioBuffer) (c i : nat) : number :=
  match buffer_channels buffer !! c with
  | Some ch => array_get ch i
  | None => NaN
  end.

(** The data section of the specification: frame after frame, and within a
    frame channel after channel, two bytes per sample. *)
Definition interleaved (buffer : AudioBuffer) : list Z :=
  flat_map
    (fun i => flat_map (fun c => u16le (sample_to_int16 (sample_at buffer c i)))
                (seq 0 (numberOfChannels buffer)))
    (seq 0 (buffer_length buffer)).


(** Clamping to [-1, 1] and the asymmetric scaling, as section 4.4 words
    them: comparisons, then a product, then the integral part. *)
Definition clamp_unit (s : number) : number :=
  if number_lt s (of_Z (-1)) then of_Z (-1)
  else if number_lt (of_Z 1) s then of_Z 1 else s.

Definition pcm16_of_unit (c : number) : Z :=
  truncate (if number_lt c (of_Z 0)
            then number_mul c (of_Z 32768) else number_mul c (of_Z 32767)).

(** The values a binary floating-point format holds: a significand below
    2^bits times a power of two with an exponent of [emin, emax]. A sample
    is a float32, a JavaScript number a binary64. *)
Definition dyadic (bits emin emax : Z) (q : Q) : Prop :=
  exists m e : Z,
    (Z.abs m < 2 ^ bits)%Z /\ (emin <= e <= emax)%Z /\ (q == inject_Z m * 2 ^ e)%Q.

Definition float32 (q : Q) : Prop := dyadic 24 (-149) 104 q.

Definition binary64 (q : Q) : Prop := dyadic 53 (-1074) 971 q.


(** ** The filter chain, the configuration and the file name (sections 3, 4.2, 6) *)

(** The comparison function of line 61. *)
Definition by_freq (a b : FilterConfig) : Q := (freq a - freq b)%Q.

Definition freq_le (a b : FilterConfig) : Prop := (freq a <= freq b)%Q.

Definition has_freq (f : Q) (c : FilterConfig) : bool := Qeq_bool (freq c) f.

(** A stable sort of [l] ascending by [freq]: the same entries, ascending,
    and the entries of each frequency in the order they have in [l]. *)
Definition stable_sort_by_freq (l sorted : list FilterConfig) : Prop :=
  Permutation sorted l
  /\ StronglySorted freq_le sorted
  /\ forall f, filter (has_freq f) sorted = filter (has_freq f) l.

(** One stage on one channel, and the stages in series: the whole output of
    a stage is the input of the next. *)
Definition apply_stage `{WebAudio} (sampleRate : Z) (ch : list number)
    (config : FilterConfig) : list number :=
  biquad (type config) (freq config) (gain config) (default 1%Q (Q' config)) sampleRate ch.

Definition cascade `{WebAudio} (sampleRate : Z) (stages : list FilterConfig)
    (ch : list number) : list number :=
  fold_left (apply_stage sampleRate) stages ch.

(** The configuration of section 3, entry by entry. *)
Definition reference_curve : list (FilterType * Q * Q * option Q) :=
  [(peaking, 170, 9.9, Some 1.76);
   (peaking, 662, -8, Some 3);
   (peaking, 3000, -11.2, Some 2.76);
   (highshelf, 7410, 10, None)]%Q.

Definition same_config (c : FilterConfig) (e : FilterType * Q * Q * option Q) : Prop :=
  let '(t, f, g, q) := e in
  type c = t /\ (freq c == f)%Q /\ (gain c == g)%Q
  /\ match Q' c, q with
     | Some x, Some y => (x == y)%Q
     | None, None => True
     | _, _ => False
     end.

(** Whether a string holds a character. *)
Definition contains (c : ascii) (s : string) : bool :=
  existsb (Ascii.eqb c) (list_ascii_of_string s).

(** * Definitions for the proofs *)

(** The two loops of lines 221 to 228, over a view whose header is written. *)
Definition write_data (buffer : AudioBuffer) (view : list Z) : option (list Z) :=
  let numChannels := numberOfChannels buffer in
  let blockAlign := numChannels * 2 in
  '(_, view) ← for_loop numChannels
    (fun channel '(channelData, view) =>
       channelData ← copyFromChannel buffer channelData channel;
       view ← for_loop (buffer_length buffer)
         (fun i view =>
            let sample := clamp_sample (array_get channelData i) in
            let int16 := scale_sample sample in
            setInt16 view (44 + (i * blockAlign) + (channel * 2)) int16 true)
         view;
       Some (channelData, view))
    (repeat (of_Z 0) (buffer_length buffer), view);
  Some view.

(** A field of the header read back: within its range a value is the number
    its bytes spell, least significant byte first. *)
Definition le_value (bs : list Z) : Z :=
  fold_right (fun b acc => b + 256 * acc)%Z 0%Z bs.

(** The node [createFilter] makes of a configuration, and the connections of
    [k] nodes in a row after node [cur]. *)
Definition biquad_of_config (config : FilterConfig) : AudioNode :=
  BiquadFilterNode (type config) (freq config) (gain config) (default 1%Q (Q' config)).

Definition chain (cur k : nat) : list (nat * nat) :=
  map (fun j => (cur + j, cur + j + 1)) (seq 0 k).

(** The graph of [processAudio] for a buffer and the sorted configurations:
    destination, source, then one filter per configuration; the source feeds
    the first filter, each filter the next, the last one the destination. *)
Definition audio_graph (audioBuffer : AudioBuffer) (sortedFilters : list FilterConfig)
    : OfflineAudioContext :=
  mkOfflineAudioContext
    (numberOfChannels audioBuffer) (buffer_length audioBuffer) (buffer_sampleRate audioBuffer)
    ([AudioDestinationNode; AudioBufferSourceNode (Some audioBuffer) true]
       ++ map biquad_of_config sortedFilters)
    (chain 1 (List.length sortedFilters) ++ [(1 + List.length sortedFilters, destination)]).

(** A dropped file after another, each handled to its end. *)
Definition handleDrops `{WebAudio} (files : list (option File))
    (st : ComponentState) (σ : Store) : ComponentState * Store :=
  fold_left (fun '(st, σ) file => (handleDrop file st σ).1) files (st, σ).

(** The state [handleDrop] leaves when it turns a file away for its type or
    for its size, and when its try block threw. *)
Definition type_rejected (st : ComponentState) : ComponentState :=
  setError (setError (setIsDragging st false) "")
    "Unsupported file type. Please use a standard audio format (WAV, MP3, OGG, AAC, M4A, FLAC)".

Definition size_rejected (st : ComponentState) : ComponentState :=
  setError (setError (setIsDragging st false) "") "File size must be less than 1GB".

Definition processing_failed (st : ComponentState) : ComponentState :=
  setIsProcessing
    (setError st "Error processing audio file. Make sure the file is a valid audio format.")
    false.

(** ** Inputs to run the model on *)

(** A stereo buffer of three frames, out of range samples among them. *)
Definition demo_buffer : AudioBuffer :=
  mkAudioBuffer 44100 3
    [[Finite 1.5; Finite (-1.5); Finite 0.5]; [NaN; Infinity true; Finite (-0.5)]].

(** The buffer of the header example of section 8: two channels, a hundred
    frames of silence, 44100 Hz. *)
Definition header_example_buffer : AudioBuffer :=
  mkAudioBuffer 44100 100 [repeat (of_Z 0) 100; repeat (of_Z 0) 100].

(** Files and a state to run the handler on. *)
Definition idle : ComponentState := mkComponentState false "" false "" false.

Definition empty_file : File := mkFile "silence.wav" "audio/wav" 0 (Ok []).

Definition small_file : File := mkFile "song.mp3" "audio/mpeg" 3 (Ok [0; 128; 255]%Z).

Definition limit_file : File := mkFile "long.flac" "audio/flac" 1073741824 (Err NotReadableError).

(** ** Definitions for further properties *)

Definition is_byte (b : Z) : Prop := (0 <= b < 256)%Z.

(** The number a field of [len] bytes at offset [off] spells. *)
Definition field (wav : list Z) (off len : nat) : Z :=
  le_value (take len (drop off wav)).



(** A buffer with no frame, and a stereo buffer whose channels are equal. *)
Definition no_frames : AudioBuffer := mkAudioBuffer 48000 0 [[]; []].

Definition twin_buffer : AudioBuffer :=
  mkAudioBuffer 44100 2 [[Finite 0.25; Finite (-0.75)]; [Finite 0.25; Finite (-0.75)]].

(** * Proofs

    ** Loops and byte writes *)

Lemma for_loop_S {S : Type} (n : nat) (body : nat -> S -> option S) (s : S) :
  for_loop (Datatypes.S n) body s = for_loop n body s ≫= body n.
Proof.
  unfold for_loop. rewrite seq_S, fold_left_app. reflexivity.
Qed.

(** The loop rule: an invariant indexed by the number of iterations done. *)
Lemma for_loop_invariant {S : Type} (I : nat -> S -> Prop) (n : nat)
    (body : nat -> S -> option S) (s : S) :
  I 0 s ->
  (forall i t, i < n -> I i t -> exists t', body i t = Some t' /\ I (Datatypes.S i) t') ->
  exists s', for_loop n body s = Some s' /\ I n s'.
Proof.
  intros H0 Hstep. induction n as [|n IH].
  - exists s. split; [reflexivity | assumption].
  - destruct IH as (t & Ht & HI).
    + intros i t Hi. apply Hstep. lia.
    + destruct (Hstep n t) as (t' & Hb & HI'); [lia | assumption |].
      exists t'. rewrite for_loop_S, Ht. split; assumption.
Qed.

Lemma length_write_bytes (bs view : list Z) (o : nat) :
  List.length (write_bytes view o bs) = List.length view.
Proof.
  revert view o. induction bs as [|b bs IH]; intros view o; simpl.
  - reflexivity.
  - rewrite IH. apply length_insert.
Qed.

Lemma lookup_write_bytes_outside (bs view : list Z) (o k : nat) :
  k < o \/ o + List.length bs <= k ->
  write_bytes view o bs !! k = view !! k.
Proof.
  revert view o. induction bs as [|b bs IH]; intros view o Hk; simpl in *.
  - reflexivity.
  - rewrite IH by lia. apply list_lookup_insert_ne. lia.
Qed.

Lemma lookup_write_bytes_inside (bs view : list Z) (o j : nat) :
  o + List.length bs <= List.length view ->
  write_bytes view o bs !! (o + j) = if decide (j < List.length bs) then bs !! j else view !! (o + j).
Proof.
  revert view o j. induction bs as [|b bs IH]; intros view o j Hlen; simpl in *.
  - reflexivity.
  - destruct j as [|j].
    + rewrite lookup_write_bytes_outside by lia.
      rewrite Nat.add_0_r, list_lookup_insert_eq by lia. reflexivity.
    + replace (o + Datatypes.S j) with (Datatypes.S o + j) by lia.
      rewrite IH by (rewrite length_insert; lia).
      simpl. destruct (decide (j < List.length bs)), (decide (Datatypes.S j < Datatypes.S (List.length bs)));
        try lia; try reflexivity.
      apply list_lookup_insert_ne. lia.
Qed.

Lemma write_bytes_app_l (bs l r : list Z) (o : nat) :
  o + List.length bs <= List.length l ->
  write_bytes (l ++ r) o bs = write_bytes l o bs ++ r.
Proof.
  revert l o. induction bs as [|b bs IH]; intros l o Hlen; simpl in *.
  - reflexivity.
  - rewrite insert_app_l by lia. apply IH. rewrite length_insert. lia.
Qed.

Lemma length_le_bytes (n : nat) (v : Z) : List.length (le_bytes n v) = n.
Proof.
  revert v. induction n as [|n IH]; intros v; simpl; [reflexivity | now rewrite IH].
Qed.

Lemma SetViewValue_le (view : list Z) (o size : nat) (raw : Z) :
  o + size <= List.length view ->
  SetViewValue view o size raw true = Some (write_bytes view o (le_bytes size raw)).
Proof.
  intros H. unfold SetViewValue.
  destruct (Nat.leb_spec (o + size) (List.length view)); [reflexivity | lia].
Qed.

Lemma le_bytes_ToUint32 (v : Z) : le_bytes 4 (ToUint32 v) = u32le v.
Proof.
  unfold ToUint32, u32le. cbn [le_bytes].
  change (2 ^ 32)%Z with 4294967296%Z.
  repeat (apply (f_equal2 cons); [Z.div_mod_to_equations; lia |]). reflexivity.
Qed.

Lemma le_bytes_ToUint16 (v : Z) : le_bytes 2 (ToUint16 v) = u16le v.
Proof.
  unfold ToUint16, u16le. cbn [le_bytes].
  change (2 ^ 16)%Z with 65536%Z.
  repeat (apply (f_equal2 cons); [Z.div_mod_to_equations; lia |]). reflexivity.
Qed.

Lemma write_bytes_app_r (a b view : list Z) (o : nat) :
  write_bytes view o (a ++ b) = write_bytes (write_bytes view o a) (o + List.length a) b.
Proof.
  revert view o. induction a as [|x a IH]; intros view o; simpl.
  - now rewrite Nat.add_0_r.
  - rewrite IH. f_equal. lia.
Qed.

Lemma length_char_codes (s : string) : List.length (char_codes s) = String.length s.
Proof.
  unfold char_codes. rewrite length_map.
  induction s as [|c s IH]; simpl; [reflexivity | now rewrite IH].
Qed.

Lemma lookup_char_codes (s : string) (i : nat) :
  i < String.length s -> char_codes s !! i = Some (charCodeAt s i).
Proof.
  unfold char_codes, charCodeAt. revert i.
  induction s as [|c s IH]; intros i Hi; simpl in *; [lia |].
  destruct i as [|i]; simpl; [reflexivity |]. apply IH. lia.
Qed.

Lemma ToUint8_charCodeAt (s : string) (i : nat) :
  ToUint8 (charCodeAt s i) = charCodeAt s i.
Proof.
  unfold ToUint8, charCodeAt. destruct (get i s) as [c|]; [| reflexivity].
  pose proof (nat_ascii_bounded c). apply Z.mod_small. change (2 ^ 8)%Z with 256%Z. lia.
Qed.

(** [writeString] writes the character codes of its string, in order. *)
Lemma writeString_ok (view : list Z) (o : nat) (s : string) :
  o + String.length s <= List.length view ->
  writeString view o s = Some (write_bytes view o (char_codes s)).
Proof.
  intros Hlen. unfold writeString.
  destruct (for_loop_invariant
              (fun i v => v = write_bytes view o (take i (char_codes s)))
              (String.length s)
              (fun i v => setUint8 v (o + i) (charCodeAt s i)) view)
    as (v & Hv & ->).
  - reflexivity.
  - intros i t Hi ->. eexists. split.
    + unfold setUint8. rewrite SetViewValue_le by (rewrite length_write_bytes; lia).
      reflexivity.
    + rewrite (take_S_r _ _ _ (lookup_char_codes s i Hi)), write_bytes_app_r.
      rewrite length_take, length_char_codes, Nat.min_l by lia.
      cbn [le_bytes]. rewrite ToUint8_charCodeAt.
      f_equal. f_equal. pose proof (ToUint8_charCodeAt s i) as H. unfold ToUint8 in H.
      exact H.
  - rewrite Hv. f_equal. f_equal. apply take_ge. rewrite length_char_codes. lia.
Qed.

Lemma audioBufferToWav_phases (buffer : AudioBuffer) :
  audioBufferToWav buffer =
  write_data buffer
    (wav_header (numberOfChannels buffer) (buffer_length buffer) (buffer_sampleRate buffer)
       ++ repeat 0%Z (buffer_length buffer * (numberOfChannels buffer * 2))).
Proof.
  unfold audioBufferToWav, write_data, setUint16, setUint32.
  change (16 / 8) with 2.
  set (n := buffer_length buffer * (numberOfChannels buffer * 2)).
  unfold ArrayBuffer. rewrite repeat_app.
  repeat (first
    [ rewrite writeString_ok
        by (rewrite ?length_write_bytes, ?length_app; cbn [List.length repeat String.length]; lia)
    | rewrite SetViewValue_le
        by (rewrite ?length_write_bytes, ?length_app; cbn [List.length repeat]; lia) ];
    cbn [mbind option_bind]).
  rewrite !le_bytes_ToUint32, !le_bytes_ToUint16.
  repeat rewrite write_bytes_app_l
    by (rewrite ?length_write_bytes; cbn [List.length repeat u32le u16le]; lia).
  unfold wav_header. fold n.
  repeat match goal with
         | |- context [char_codes ?s] =>
             let x := eval vm_compute in (char_codes s) in change (char_codes s) with x
         end.
  reflexivity.
Qed.

Lemma offset_inj (C i c j i' c' j' : nat) :
  c < C -> c' < C -> j < 2 -> j' < 2 ->
  i * (C * 2) + c * 2 + j = i' * (C * 2) + c' * 2 + j' ->
  i = i' /\ c = c' /\ j = j'.
Proof.
  intros Hc Hc' Hj Hj' H.
  destruct (lt_eq_lt_dec i i') as [[Hlt | ->] | Hgt]; [nia | lia | nia].
Qed.

Lemma offset_bound (C L i c : nat) :
  c < C -> i < L -> 44 + i * (C * 2) + c * 2 + 2 <= 44 + L * (C * 2).
Proof. intros Hc Hi. nia. Qed.

Lemma setInt16_le (view : list Z) (o : nat) (x : number) :
  o + 2 <= List.length view ->
  setInt16 view o x true = Some (write_bytes view o (u16le (ToInt16 x))).
Proof. intros H. unfold setInt16. now rewrite SetViewValue_le. Qed.

(** The inner loop (lines 223 to 227) for channel [c]: it never throws, and
    it writes exactly the two bytes of each frame's slot of that channel. *)
Lemma inner_loop_spec (C L c : nat) (channelData : list number) (view : list Z) :
  c < C -> 44 + L * (C * 2) <= List.length view ->
  exists view',
    for_loop L
      (fun i view =>
         let sample := clamp_sample (array_get channelData i) in
         let int16 := scale_sample sample in
         setInt16 view (44 + (i * (C * 2)) + (c * 2)) int16 true) view = Some view'
    /\ List.length view' = List.length view
    /\ (forall k, (forall i j, i < L -> j < 2 -> k <> 44 + i * (C * 2) + c * 2 + j) ->
                  view' !! k = view !! k)
    /\ (forall i j, i < L -> j < 2 ->
          view' !! (44 + i * (C * 2) + c * 2 + j)
          = u16le (sample_to_int16 (array_get channelData i)) !! j).
Proof.
  intros Hc Hlen.
  pose (I := fun (m : nat) (v : list Z) =>
    List.length v = List.length view
    /\ (forall k, (forall i j, i < m -> j < 2 -> k <> 44 + i * (C * 2) + c * 2 + j) ->
                  v !! k = view !! k)
    /\ (forall i j, i < m -> j < 2 ->
          v !! (44 + i * (C * 2) + c * 2 + j)
          = u16le (sample_to_int16 (array_get channelData i)) !! j)).
  destruct (for_loop_invariant I L
              (fun i view =>
                 let sample := clamp_sample (array_get channelData i) in
                 let int16 := scale_sample sample in
                 setInt16 view (44 + (i * (C * 2)) + (c * 2)) int16 true) view)
    as (v & Hv & HI).
  - unfold I. repeat split; intros; solve [reflexivity | lia].
  - intros m t Hm (Hl & Hframe & Hwritten).
    pose proof (offset_bound C L m c Hc Hm) as Hb.
    eexists. split.
    + cbv zeta. apply setInt16_le. lia.
    + fold (sample_to_int16 (array_get channelData m)).
      set (bs := u16le (sample_to_int16 (array_get channelData m))).
      assert (Hbs : List.length bs = 2) by reflexivity.
      repeat split.
      * now rewrite length_write_bytes.
      * intros k Hk. rewrite lookup_write_bytes_outside.
        -- apply Hframe. intros i j Hi Hj. apply Hk; lia.
        -- rewrite Hbs. pose proof (Hk m 0 ltac:(lia) ltac:(lia)).
           pose proof (Hk m 1 ltac:(lia) ltac:(lia)). lia.
      * intros i j Hi Hj. destruct (decide (i = m)) as [-> | Hne].
        -- rewrite lookup_write_bytes_inside by lia.
           rewrite Hbs. destruct (decide (j < 2)); [reflexivity | lia].
        -- rewrite lookup_write_bytes_outside by (rewrite Hbs; nia).
           apply Hwritten; lia.
  - exists v. destruct HI as (? & ? & ?). auto.
Qed.

Lemma copyFromChannel_spec (buffer : AudioBuffer) (destination : list number) (c : nat) :
  c < numberOfChannels buffer ->
  exists channelData,
    copyFromChannel buffer destination c = Some channelData
    /\ List.length channelData = List.length destination
    /\ (wf_buffer buffer -> List.length destination = buffer_length buffer ->
        forall i, array_get channelData i = sample_at buffer c i).
Proof.
  intros Hc. unfold copyFromChannel, sample_at.
  destruct (lookup_lt_is_Some_2 (buffer_channels buffer) c Hc) as [src Hsrc].
  rewrite Hsrc. eexists. split; [reflexivity |]. split.
  - rewrite length_app, length_take, length_drop. lia.
  - intros Hwf Hd i.
    assert (Hl : List.length src = buffer_length buffer).
    { unfold wf_buffer in Hwf. rewrite Forall_lookup in Hwf. exact (Hwf c src Hsrc). }
    rewrite take_ge, drop_ge, app_nil_r by lia. reflexivity.
Qed.

(** The two loops together: no exception, the header untouched, and every
    sample of a well-formed buffer in its slot. *)
Lemma write_data_spec (buffer : AudioBuffer) (view : list Z) :
  44 + buffer_length buffer * (numberOfChannels buffer * 2) <= List.length view ->
  exists view',
    write_data buffer view = Some view'
    /\ List.length view' = List.length view
    /\ (forall k, k < 44 -> view' !! k = view !! k)
    /\ (wf_buffer buffer -> forall c i j,
          c < numberOfChannels buffer -> i < buffer_length buffer -> j < 2 ->
          view' !! (44 + i * (numberOfChannels buffer * 2) + c * 2 + j)
          = u16le (sample_to_int16 (sample_at buffer c i)) !! j).
Proof.
  intros Hlen. unfold write_data.
  set (C := numberOfChannels buffer) in *. set (L := buffer_length buffer) in *.
  pose (J := fun (m : nat) (st : list number * list Z) =>
    List.length st.2 = List.length view
    /\ List.length st.1 = L
    /\ (forall k, k < 44 -> st.2 !! k = view !! k)
    /\ (wf_buffer buffer -> forall c i j, c < m -> i < L -> j < 2 ->
          st.2 !! (44 + i * (C * 2) + c * 2 + j)
          = u16le (sample_to_int16 (sample_at buffer c i)) !! j)).
  match goal with
  | |- context [for_loop C ?body ?init] =>
      destruct (for_loop_invariant J C body init) as ([cd v] & Hv & HJ)
  end.
  - unfold J. cbn [fst snd]. repeat split; intros; try lia.
    apply repeat_length.
  - intros m [cd t] Hm (Hl & Hcd & Hhead & Hdone). cbn [fst snd] in *.
    destruct (copyFromChannel_spec buffer cd m Hm) as (cd' & Hcopy & Hcd' & Hget).
    destruct (inner_loop_spec C L m cd' t Hm ltac:(lia))
      as (t' & Ht' & Hl' & Hframe & Hwritten).
    exists (cd', t'). split.
    + cbv beta iota zeta. rewrite Hcopy. cbn [mbind option_bind].
      cbv zeta in Ht'. fold C L. rewrite Ht'. reflexivity.
    + unfold J. cbn [fst snd]. repeat split.
      * lia.
      * lia.
      * intros k Hk. rewrite Hframe; [auto |]. intros; lia.
      * intros Hwf c i j Hc Hi Hj. destruct (decide (c = m)) as [-> | Hne].
        -- rewrite Hwritten by assumption. now rewrite Hget.
        -- rewrite Hframe; [apply Hdone; auto; lia |].
           intros i' j' Hi' Hj' Heq.
           assert (c < C) by lia.
           destruct (offset_inj C i c j i' m j') as (_ & ? & _); auto; lia.
  - exists v. rewrite Hv. cbn [mbind option_bind].
    destruct HJ as (? & ? & ? & ?). cbn [fst snd] in *. auto.
Qed.

(** The encoder returns; its output is the header followed by the
    interleaved samples. *)
Lemma audioBufferToWav_returns (buffer : AudioBuffer) :
  exists wav,
    audioBufferToWav buffer = Some wav
    /\ List.length wav = 44 + buffer_length buffer * (numberOfChannels buffer * 2)
    /\ take 44 wav
       = wav_header (numberOfChannels buffer) (buffer_length buffer) (buffer_sampleRate buffer)
    /\ (wf_buffer buffer -> forall c i j,
          c < numberOfChannels buffer -> i < buffer_length buffer -> j < 2 ->
          wav !! (44 + i * (numberOfChannels buffer * 2) + c * 2 + j)
          = u16le (sample_to_int16 (sample_at buffer c i)) !! j).
Proof.
  rewrite audioBufferToWav_phases.
  set (h := wav_header _ _ _).
  assert (Hh : List.length h = 44) by reflexivity.
  destruct (write_data_spec buffer
              (h ++ repeat 0%Z (buffer_length buffer * (numberOfChannels buffer * 2))))
    as (wav & Hw & Hl & Hhead & Hdata).
  { rewrite length_app, repeat_length. lia. }
  exists wav. rewrite length_app, repeat_length, Hh in Hl.
  repeat split; try assumption.
  apply list_eq. intros k. destruct (decide (k < 44)) as [Hk | Hk].
  - rewrite lookup_take_lt, Hhead by assumption. apply lookup_app_l. lia.
  - rewrite lookup_take_ge by lia. symmetry. apply lookup_ge_None. lia.
Qed.

(** Lookup in a concatenation of [n] blocks of the same length [m]. *)
Lemma length_flat_map_seq {A : Type} (f : nat -> list A) (m n : nat) :
  (forall k, k < n -> List.length (f k) = m) ->
  List.length (flat_map f (seq 0 n)) = n * m.
Proof.
  induction n as [|n IH]; intros Hf; [reflexivity |].
  rewrite seq_S, flat_map_app, length_app, IH by (intros; apply Hf; lia).
  cbn [flat_map Nat.add]. rewrite app_nil_r, Hf by lia. lia.
Qed.

Lemma lookup_flat_map_seq {A : Type} (f : nat -> list A) (m n i r : nat) :
  (forall k, k < n -> List.length (f k) = m) ->
  i < n -> r < m ->
  flat_map f (seq 0 n) !! (i * m + r) = f i !! r.
Proof.
  induction n as [|n IH]; intros Hf Hi Hr; [lia |].
  rewrite seq_S, flat_map_app. cbn [flat_map Nat.add]. rewrite app_nil_r.
  assert (Hl : List.length (flat_map f (seq 0 n)) = n * m)
    by (apply length_flat_map_seq; intros; apply Hf; lia).
  destruct (decide (i = n)) as [-> | Hne].
  - rewrite lookup_app_r by lia. f_equal. lia.
  - rewrite lookup_app_l by nia. apply IH; [intros; apply Hf |..]; lia.
Qed.

Lemma length_interleaved (buffer : AudioBuffer) :
  List.length (interleaved buffer)
  = buffer_length buffer * (numberOfChannels buffer * 2).
Proof.
  unfold interleaved. apply length_flat_map_seq. intros i _.
  apply length_flat_map_seq. reflexivity.
Qed.

Lemma lookup_interleaved (buffer : AudioBuffer) (c i j : nat) :
  c < numberOfChannels buffer -> i < buffer_length buffer -> j < 2 ->
  interleaved buffer !! (i * (numberOfChannels buffer * 2) + c * 2 + j)
  = u16le (sample_to_int16 (sample_at buffer c i)) !! j.
Proof.
  intros Hc Hi Hj. unfold interleaved. rewrite <- Nat.add_assoc.
  rewrite (lookup_flat_map_seq _ (numberOfChannels buffer * 2)); try lia.
  - now apply (lookup_flat_map_seq
                 (fun c => u16le (sample_to_int16 (sample_at buffer c i))) 2).
  - intros k _. apply length_flat_map_seq. reflexivity.
Qed.

Lemma audioBufferToWav_layout (buffer : AudioBuffer) :
  wf_buffer buffer ->
  audioBufferToWav buffer
  = Some (wav_header (numberOfChannels buffer) (buffer_length buffer)
            (buffer_sampleRate buffer) ++ interleaved buffer).
Proof.
  intros Hwf.
  destruct (audioBufferToWav_returns buffer) as (wav & -> & Hl & Hh & Hd).
  f_equal. rewrite <- (take_drop 44 wav) at 1. rewrite Hh. f_equal.
  set (C := numberOfChannels buffer) in *. set (L := buffer_length buffer) in *.
  apply list_eq. intros k. rewrite lookup_drop.
  destruct (decide (k < L * (C * 2))) as [Hk | Hk].
  - assert (HC : C * 2 <> 0) by lia.
    pose proof (Nat.div_mod_eq k (C * 2)) as Hdm.
    pose proof (Nat.mod_upper_bound k (C * 2) HC) as Hm.
    pose proof (Nat.div_mod_eq (k mod (C * 2)) 2) as Hdm2.
    pose proof (Nat.mod_upper_bound (k mod (C * 2)) 2 ltac:(lia)) as Hm2.
    set (i := k / (C * 2)) in *. set (r := k mod (C * 2)) in *.
    set (c := r / 2) in *. set (j := r mod 2) in *.
    assert (Hi : i < L) by nia. assert (Hc : c < C) by lia.
    replace k with (i * (C * 2) + c * 2 + j) by lia.
    fold C L in Hd. unfold C at 2.
    rewrite lookup_interleaved by assumption.
    rewrite <- (Hd Hwf c i j) by assumption. f_equal; lia.
  - rewrite !lookup_ge_None_2; [reflexivity | |].
    + rewrite length_interleaved. fold C L. lia.
    + lia.
Qed.


Lemma u32le_value (v : Z) : (0 <= v < 2 ^ 32)%Z -> le_value (u32le v) = v.
Proof.
  change (2 ^ 32)%Z with 4294967296%Z. intros H. unfold le_value, u32le. cbn [fold_right].
  Z.div_mod_to_equations. lia.
Qed.

Lemma u16le_value (v : Z) : (0 <= v < 2 ^ 16)%Z -> le_value (u16le v) = v.
Proof.
  change (2 ^ 16)%Z with 65536%Z. intros H. unfold le_value, u16le. cbn [fold_right].
  Z.div_mod_to_equations. lia.
Qed.

(** C1. For every buffer the encoder returns a byte sequence; it is
    44 + frameCount x channelCount x 2 bytes long, and its first 44 bytes are
    the header of section 4.4: RIFF, 36 + dataBytes, WAVE, fmt, 16, the
    format tag 1, channelCount, sampleRate, sampleRate x blockAlign,
    blockAlign = channelCount x 2, 16 bits per sample, data, and
    dataBytes = frameCount x blockAlign, every number little-endian on two or
    four bytes. *)
Theorem audioBufferToWav_header (buffer : AudioBuffer) :
  let channelCount := numberOfChannels buffer in
  let frameCount := buffer_length buffer in
  let sampleRate := buffer_sampleRate buffer in
  let blockAlign := channelCount * 2 in
  let dataBytes := frameCount * blockAlign in
  exists wav,
    audioBufferToWav buffer = Some wav
    /\ List.length wav = 44 + frameCount * channelCount * 2
    /\ take 44 wav =
       char_codes "RIFF" ++ u32le (Z.of_nat (36 + dataBytes)) ++
       char_codes "WAVE" ++
       char_codes "fmt " ++ u32le 16 ++
       u16le 1 ++ u16le (Z.of_nat channelCount) ++
       u32le sampleRate ++ u32le (sampleRate * Z.of_nat blockAlign) ++
       u16le (Z.of_nat blockAlign) ++ u16le 16 ++
       char_codes "data" ++ u32le (Z.of_nat dataBytes).
Proof.
  cbv zeta.
  destruct (audioBufferToWav_returns buffer) as (wav & Hw & Hl & Hh & _).
  exists wav. split; [assumption |]. split; [lia |]. exact Hh.
Qed.

(** The header example of section 8: 444 bytes, and these 44 first. *)
Example audioBufferToWav_header_example :
  exists wav,
    audioBufferToWav header_example_buffer = Some wav
    /\ List.length wav = 444
    /\ take 44 wav =
       [82; 73; 70; 70; 180; 1; 0; 0; 87; 65; 86; 69; 102; 109; 116; 32;
        16; 0; 0; 0; 1; 0; 2; 0; 68; 172; 0; 0; 16; 177; 2; 0; 4; 0; 16; 0;
        100; 97; 116; 97; 144; 1; 0; 0]%Z.
Proof.
  destruct (audioBufferToWav_returns header_example_buffer) as (wav & Hw & Hl & Hh & _).
  exists wav. split; [assumption |]. split; [exact Hl |]. rewrite Hh. reflexivity.
Qed.

(** C6. In the output for a well-formed buffer, the sample of frame [i] and
    channel [c] stands little-endian at byte offset 44 + i x blockAlign + c x 2,
    so the data section is frame after frame with the channels interleaved,
    although the loops of the encoder run channel by channel. *)
Theorem audioBufferToWav_sample_offset (buffer : AudioBuffer) :
  wf_buffer buffer ->
  let blockAlign := numberOfChannels buffer * 2 in
  exists wav,
    audioBufferToWav buffer = Some wav
    /\ (forall c i, c < numberOfChannels buffer -> i < buffer_length buffer ->
          let int16 := sample_to_int16 (sample_at buffer c i) in
          wav !! (44 + i * blockAlign + c * 2) = Some (int16 mod 256)%Z
          /\ wav !! (44 + i * blockAlign + c * 2 + 1) = Some (int16 / 256 mod 256)%Z)
    /\ drop 44 wav = interleaved buffer.
Proof.
  intros Hwf. cbv zeta.
  destruct (audioBufferToWav_returns buffer) as (wav & Hw & Hl & Hh & Hd).
  exists wav. split; [assumption |]. split.
  - intros c i Hc Hi. split.
    + rewrite <- (Nat.add_0_r (44 + _ + _)). now rewrite (Hd Hwf c i 0) by lia.
    + now rewrite (Hd Hwf c i 1) by lia.
  - pose proof (audioBufferToWav_layout buffer Hwf) as Hlay.
    assert (E : wav = wav_header (numberOfChannels buffer) (buffer_length buffer)
                        (buffer_sampleRate buffer) ++ interleaved buffer) by congruence.
    rewrite E. now apply drop_app_length'.
Qed.

Lemma audioBufferToWav_sample_offset_witness :
  wf_buffer demo_buffer
  /\ exists wav,
       audioBufferToWav demo_buffer = Some wav
       /\ (forall c i, c < 2 -> i < 3 ->
             wav !! (44 + i * 4 + c * 2)
             = Some (sample_to_int16 (sample_at demo_buffer c i) mod 256)%Z
             /\ wav !! (44 + i * 4 + c * 2 + 1)
                = Some (sample_to_int16 (sample_at demo_buffer c i) / 256 mod 256)%Z)
       /\ drop 44 wav = interleaved demo_buffer.
Proof.
  assert (Hwf : wf_buffer demo_buffer) by (repeat constructor).
  split; [exact Hwf |].
  exact (audioBufferToWav_sample_offset demo_buffer Hwf).
Defined.

(** ** Clamping and scaling of a sample *)

Lemma ToInt16_small (x : number) :
  (- 2 ^ 15 <= truncate x < 2 ^ 15)%Z -> ToInt16 x = truncate x.
Proof.
  intros H. unfold ToInt16. cbv zeta.
  change (2 ^ 16)%Z with 65536%Z. change (2 ^ 15)%Z with 32768%Z in *.
  destruct (Z.leb_spec 32768 (truncate x mod 65536)); Z.div_mod_to_equations; lia.
Qed.

Lemma Qlt_bool_spec (p q : Q) : reflect (p < q)%Q (Qlt_bool p q).
Proof.
  unfold Qlt_bool. destruct (Qle_bool q p) eqn:E; constructor.
  - apply Qle_bool_iff in E. now apply Qle_not_lt.
  - apply Qnot_le_lt. intros H. apply Qle_bool_iff in H. congruence.
Qed.


Lemma truncate_scaled_bounds (q : Q) (k : Z) :
  (0 <= k)%Z -> (inject_Z (-1) <= q)%Q -> (q <= inject_Z 1)%Q ->
  (- k <= truncate (Finite (q * inject_Z k)) <= k)%Z.
Proof.
  destruct q as [n d]. unfold Qle. cbn. intros Hk H1 H2.
  rewrite Pos.mul_1_r. Z.quot_rem_to_equations. nia.
Qed.

Lemma truncate_scaled_Qeq (q : Q) (u k : Z) :
  (q == inject_Z u)%Q -> truncate (Finite (q * inject_Z k)) = (u * k)%Z.
Proof.
  destruct q as [n d]. unfold Qeq. cbn. intros H.
  rewrite Pos.mul_1_r, Z.mul_1_r in *. subst n.
  rewrite <- Z.mul_assoc, (Z.mul_comm (Z.pos d)), Z.mul_assoc.
  apply Z.quot_mul. lia.
Qed.


Lemma truncate_scaled_sign (q : Q) (k : Z) :
  (0 <= k)%Z ->
  ((q < inject_Z 0)%Q -> (truncate (Finite (q * inject_Z k)) <= 0)%Z)
  /\ ((inject_Z 0 <= q)%Q -> (0 <= truncate (Finite (q * inject_Z k)))%Z).
Proof.
  destruct q as [n d]. unfold Qle, Qlt. cbn. intros Hk.
  rewrite Pos.mul_1_r. split; intros H; Z.quot_rem_to_equations; nia.
Qed.

Ltac number_cases :=
  unfold sample_to_int16, clamp_sample, scale_sample, Math_max, Math_min, of_Z;
  cbn [number_lt number_mul];
  repeat (match goal with
          | |- context [Qlt_bool ?a ?b] => destruct (Qlt_bool_spec a b)
          end; cbn [number_lt number_mul]);
  try (exfalso; unfold Qlt, Qle in *; cbn in *; lia).

Lemma sample_to_int16_low (q : Q) :
  (q <= inject_Z (-1))%Q -> sample_to_int16 (Finite q) = (-32768)%Z.
Proof. intros H. number_cases. all: reflexivity. Qed.

Lemma sample_to_int16_high (q : Q) :
  (inject_Z 1 <= q)%Q -> sample_to_int16 (Finite q) = 32767%Z.
Proof. intros H. number_cases. all: reflexivity. Qed.

Lemma sample_to_int16_negative (q : Q) :
  (inject_Z (-1) <= q)%Q -> (q < inject_Z 0)%Q ->
  sample_to_int16 (Finite q) = truncate (Finite (q * inject_Z 32768)).
Proof.
  intros H1 H2.
  assert (H3 : (q <= inject_Z 1)%Q) by (unfold Qlt, Qle in *; cbn in *; lia).
  pose proof (truncate_scaled_bounds q 32768 ltac:(lia) H1 H3) as Hb.
  pose proof (proj1 (truncate_scaled_sign q 32768 ltac:(lia)) H2) as Hs.
  number_cases.
  - apply ToInt16_small. change (2 ^ 15)%Z with 32768%Z. lia.
  - rewrite (truncate_scaled_Qeq q (-1)); [reflexivity |].
    apply Qle_antisym; [now apply Qnot_lt_le | assumption].
Qed.

Lemma sample_to_int16_nonnegative (q : Q) :
  (inject_Z 0 <= q)%Q -> (q <= inject_Z 1)%Q ->
  sample_to_int16 (Finite q) = truncate (Finite (q * inject_Z 32767)).
Proof.
  intros H1 H2.
  assert (H0 : (inject_Z (-1) <= q)%Q) by (unfold Qlt, Qle in *; cbn in *; lia).
  pose proof (truncate_scaled_bounds q 32767 ltac:(lia) H0 H2) as Hb.
  number_cases.
  - apply ToInt16_small. change (2 ^ 15)%Z with 32768%Z. lia.
  - rewrite (truncate_scaled_Qeq q 1); [reflexivity |].
    apply Qle_antisym; [assumption | now apply Qnot_lt_le].
Qed.

Lemma sample_to_int16_spec (s : number) :
  sample_to_int16 s = pcm16_of_unit (clamp_unit s)
  /\ (-32768 <= sample_to_int16 s <= 32767)%Z.
Proof.
  destruct s as [| [|] | q]; try (split; [reflexivity | vm_compute; split; congruence]).
  unfold pcm16_of_unit, clamp_unit, of_Z. cbn [number_lt].
  destruct (Qlt_bool_spec q (inject_Z (-1))) as [Hlo | Hlo].
  - rewrite sample_to_int16_low by now apply Qlt_le_weak.
    split; [reflexivity | lia].
  - apply Qnot_lt_le in Hlo.
    destruct (Qlt_bool_spec (inject_Z 1) q) as [Hhi | Hhi].
    + rewrite sample_to_int16_high by now apply Qlt_le_weak.
      split; [reflexivity | lia].
    + apply Qnot_lt_le in Hhi. cbn [number_lt number_mul].
      destruct (Qlt_bool_spec q (inject_Z 0)) as [Hneg | Hneg].
      * rewrite sample_to_int16_negative by assumption. split; [reflexivity |].
        pose proof (truncate_scaled_bounds q 32768 ltac:(lia) Hlo Hhi).
        pose proof (proj1 (truncate_scaled_sign q 32768 ltac:(lia)) Hneg). lia.
      * apply Qnot_lt_le in Hneg.
        rewrite sample_to_int16_nonnegative by assumption. split; [reflexivity |].
        pose proof (truncate_scaled_bounds q 32767 ltac:(lia) Hlo Hhi). lia.
Qed.

(** C2. The 16-bit value written for a sample [s] is that of [s] clamped to
    [-1, 1], scaled by 32768 when negative and by 32767 otherwise, with no
    wrap-around; so 1.5 encodes as 1.0 does, to 32767, and -1.5 as -1.0
    does, to -32768. *)
Theorem sample_clamped_then_scaled :
  (forall s : number,
     sample_to_int16 s = pcm16_of_unit (clamp_unit s)
     /\ (-32768 <= sample_to_int16 s <= 32767)%Z
     /\ (forall q, s = Finite q -> (inject_Z (-1) <= q)%Q -> (q < inject_Z 0)%Q ->
           sample_to_int16 s = truncate (Finite (q * inject_Z 32768)))
     /\ (forall q, s = Finite q -> (inject_Z 0 <= q)%Q -> (q <= inject_Z 1)%Q ->
           sample_to_int16 s = truncate (Finite (q * inject_Z 32767))))
  /\ sample_to_int16 (Finite 1.5) = 32767%Z
  /\ sample_to_int16 (Finite 1.0) = 32767%Z
  /\ sample_to_int16 (Finite (-1.5)) = (-32768)%Z
  /\ sample_to_int16 (Finite (-1.0)) = (-32768)%Z.
Proof.
  split; [| repeat split; reflexivity].
  intros s. destruct (sample_to_int16_spec s) as [H1 H2].
  repeat split; try assumption; try lia.
  - intros q -> Hlo Hneg. now apply sample_to_int16_negative.
  - intros q -> Hnn Hhi. now apply sample_to_int16_nonnegative.
Qed.

(** ** The rational product is the product of doubles

    The clamped sample is the sample or one of -1 and 1, a float32 again;
    its product with 0x8000 or 0x7FFF has a significand below 2^40 and the
    exponent of the sample, so it is a binary64 and the multiplication of
    doubles returns it unrounded. *)

Lemma float32_of_Z_unit (u : Z) : (Z.abs u <= 1)%Z -> float32 (inject_Z u).
Proof.
  intros Hu. exists u, 0%Z. split; [| split].
  - change (2 ^ 24)%Z with 16777216%Z. lia.
  - lia.
  - cbn. ring.
Qed.

Lemma clamp_sample_float32 (q : Q) :
  float32 q -> exists p, clamp_sample (Finite q) = Finite p /\ float32 p.
Proof.
  intros Hq. unfold clamp_sample, Math_max, Math_min, of_Z. cbn [number_lt].
  destruct (Qlt_bool q (inject_Z 1)); cbn [number_lt].
  - destruct (Qlt_bool (inject_Z (-1)) q); eexists; (split; [reflexivity |]);
      [assumption | now apply float32_of_Z_unit].
  - destruct (Qlt_bool (inject_Z (-1)) (inject_Z 1)); eexists; (split; [reflexivity |]);
      now apply float32_of_Z_unit.
Qed.

Lemma float32_scaled (p : Q) (k : Z) :
  float32 p -> (0 <= k < 2 ^ 16)%Z -> binary64 (p * inject_Z k).
Proof.
  intros (m & e & Hm & He & Hp) Hk. exists (m * k)%Z, e. split; [| split].
  - rewrite Z.abs_mul, (Z.abs_eq k) by lia.
    change (2 ^ 24)%Z with 16777216%Z in Hm. change (2 ^ 16)%Z with 65536%Z in Hk.
    change (2 ^ 53)%Z with 9007199254740992%Z. nia.
  - lia.
  - rewrite Hp, inject_Z_mult. ring.
Qed.

Lemma scale_sample_exact (q : Q) :
  float32 q ->
  exists r, scale_sample (clamp_sample (Finite q)) = Finite r /\ binary64 r.
Proof.
  intros Hq. destruct (clamp_sample_float32 q Hq) as (p & -> & Hp).
  unfold scale_sample, of_Z. cbn [number_lt].
  destruct (Qlt_bool p (inject_Z 0)); cbn [number_mul];
    eexists; (split; [reflexivity |]); apply float32_scaled; try assumption;
    split; vm_compute; congruence.
Qed.

Lemma scale_sample_exact_witness :
  float32 1.5
  /\ exists r, scale_sample (clamp_sample (Finite 1.5)) = Finite r /\ binary64 r.
Proof.
  assert (H : float32 1.5).
  { exists 3%Z, (-1)%Z. split; [| split]; [reflexivity | lia | reflexivity]. }
  split; [exact H | exact (scale_sample_exact 1.5 H)].
Defined.

(** ** The sort of line 61 *)

Lemma by_freq_gt (x y : FilterConfig) :
  Qlt_bool 0 (by_freq x y) = true <-> (freq y < freq x)%Q.
Proof.
  unfold by_freq. destruct (Qlt_bool_spec 0 (freq x - freq y)) as [H | H].
  - split; [intros _ | reflexivity]. apply Qlt_minus_iff. exact H.
  - split; [discriminate | intros Hlt]. exfalso. apply H.
    apply Qlt_minus_iff in Hlt. exact Hlt.
Qed.

Lemma sort_insert_Permutation {A : Type} (cmp : A -> A -> Q) (x : A) (l : list A) :
  Permutation (sort_insert cmp x l) (x :: l).
Proof.
  induction l as [|y l IH]; simpl; [reflexivity |].
  destruct (Qlt_bool 0 (cmp x y)); [| reflexivity].
  rewrite IH. apply perm_swap.
Qed.

Lemma Array_sort_Permutation {A : Type} (cmp : A -> A -> Q) (l : list A) :
  Permutation (Array_sort cmp l) l.
Proof.
  induction l as [|x l IH]; simpl; [reflexivity |].
  rewrite sort_insert_Permutation. now constructor.
Qed.

Lemma sort_insert_sorted (x : FilterConfig) (l : list FilterConfig) :
  StronglySorted freq_le l -> StronglySorted freq_le (sort_insert by_freq x l).
Proof.
  induction 1 as [|y l Hs IH Hy]; simpl.
  - repeat constructor.
  - destruct (Qlt_bool 0 (by_freq x y)) eqn:E.
    + apply by_freq_gt in E. constructor; [assumption |].
      rewrite (sort_insert_Permutation by_freq x l).
      constructor; [now apply Qlt_le_weak | assumption].
    + assert (Hxy : freq_le x y).
      { unfold freq_le. apply Qnot_lt_le. intros Hlt. apply by_freq_gt in Hlt. congruence. }
      constructor; [now constructor |].
      constructor; [assumption |].
      eapply Forall_impl; [exact Hy |]. intros z Hz. unfold freq_le in *.
      now apply Qle_trans with (freq y).
Qed.

Lemma Array_sort_sorted (l : list FilterConfig) :
  StronglySorted freq_le (Array_sort by_freq l).
Proof.
  induction l as [|x l IH]; simpl; [constructor | now apply sort_insert_sorted].
Qed.

Lemma sort_insert_stable (f : Q) (x : FilterConfig) (l : list FilterConfig) :
  filter (has_freq f) (sort_insert by_freq x l) = filter (has_freq f) (x :: l).
Proof.
  induction l as [|y l IH]; [reflexivity |].
  cbn [sort_insert]. destruct (Qlt_bool 0 (by_freq x y)) eqn:E; [| reflexivity].
  apply by_freq_gt in E.
  rewrite filter_cons, IH, !filter_cons.
  destruct (decide (has_freq f y)) as [Hy | Hy], (decide (has_freq f x)) as [Hx | Hx];
    try reflexivity.
  exfalso. unfold has_freq in *.
  apply Is_true_true, Qeq_bool_iff in Hy. apply Is_true_true, Qeq_bool_iff in Hx.
  rewrite Hx, Hy in E. now apply Qlt_irrefl in E.
Qed.

Lemma Array_sort_stable (f : Q) (l : list FilterConfig) :
  filter (has_freq f) (Array_sort by_freq l) = filter (has_freq f) l.
Proof.
  induction l as [|x l IH]; [reflexivity |].
  cbn [Array_sort fold_right]. fold (Array_sort by_freq l).
  rewrite sort_insert_stable, !filter_cons, IH. reflexivity.
Qed.

Lemma Array_sort_by_freq (l : list FilterConfig) :
  stable_sort_by_freq l (Array_sort by_freq l).
Proof.
  split; [apply Array_sort_Permutation |].
  split; [apply Array_sort_sorted | intros f; apply Array_sort_stable].
Qed.

(** Two stable sorts of a list by [freq] are the same list: the sort of an
    engine and the insertion sort of the model agree. *)
Lemma sorted_stable_unique (s1 s2 : list FilterConfig) :
  StronglySorted freq_le s1 -> StronglySorted freq_le s2 ->
  Permutation s1 s2 ->
  (forall f, filter (has_freq f) s1 = filter (has_freq f) s2) ->
  s1 = s2.
Proof.
  revert s2. induction s1 as [|x s1 IH]; intros s2 Hs1 Hs2 Hp Hf.
  - now apply Permutation_nil in Hp.
  - destruct s2 as [|y s2]; [now apply Permutation_sym, Permutation_nil in Hp |].
    apply StronglySorted_inv in Hs1 as [Hs1 Hx], Hs2 as [Hs2 Hy].
    assert (Hxy : freq_le x y).
    { assert (Hin : In y (x :: s1)) by (eapply Permutation_in; [symmetry; exact Hp | now left]).
      destruct Hin as [-> | Hin]; [apply Qle_refl |].
      rewrite List.Forall_forall in Hx. now apply Hx. }
    assert (Hyx : freq_le y x).
    { assert (Hin : In x (y :: s2)) by (eapply Permutation_in; [exact Hp | now left]).
      destruct Hin as [-> | Hin]; [apply Qle_refl |].
      rewrite List.Forall_forall in Hy. now apply Hy. }
    assert (Heq : (freq y == freq x)%Q) by (now apply Qle_antisym).
    assert (E : x = y).
    { specialize (Hf (freq x)). rewrite !filter_cons in Hf.
      destruct (decide (has_freq (freq x) x)) as [_ | Hn].
      - destruct (decide (has_freq (freq x) y)) as [_ | Hn]; [congruence |].
        exfalso. apply Hn. unfold has_freq. now apply Is_true_true, Qeq_bool_iff.
      - exfalso. apply Hn. unfold has_freq. apply Is_true_true, Qeq_bool_iff. reflexivity. }
    subst y. f_equal. apply IH; try assumption.
    + now apply Permutation_cons_inv in Hp.
    + intros f. specialize (Hf f). rewrite !filter_cons in Hf.
      destruct (decide (has_freq f x)); congruence.
Qed.

Lemma stable_sort_unique (l s1 s2 : list FilterConfig) :
  stable_sort_by_freq l s1 -> stable_sort_by_freq l s2 -> s1 = s2.
Proof.
  intros (Hp1 & Hs1 & Hf1) (Hp2 & Hs2 & Hf2).
  apply sorted_stable_unique; try assumption.
  - now rewrite Hp1, Hp2.
  - intros f. now rewrite Hf1, Hf2.
Qed.

Lemma stable_sort_unique_witness :
  stable_sort_by_freq (rev filters) filters
  /\ stable_sort_by_freq (rev filters) (Array_sort by_freq (rev filters))
  /\ filters = Array_sort by_freq (rev filters).
Proof.
  assert (H2 : stable_sort_by_freq (rev filters) (Array_sort by_freq (rev filters)))
    by apply Array_sort_by_freq.
  assert (H1 : stable_sort_by_freq (rev filters) filters) by exact H2.
  split; [exact H1 |]. split; [exact H2 |].
  exact (stable_sort_unique (rev filters) filters (Array_sort by_freq (rev filters)) H1 H2).
Defined.

(** ** The graph [processAudio] builds *)

Lemma alter_last {A : Type} (f : A -> A) (l : list A) (x : A) :
  alter f (List.length l) (l ++ [x]) = l ++ [f x].
Proof.
  rewrite <- (Nat.add_0_r (List.length l)). now rewrite alter_app_r.
Qed.

Lemma createFilter_spec (ctx : OfflineAudioContext) (config : FilterConfig) :
  createFilter ctx config
  = (with_nodes ctx (ctx_nodes ctx ++ [biquad_of_config config]), List.length (ctx_nodes ctx)).
Proof.
  unfold createFilter, createBiquadFilter, new_node, set_type, set_frequency, set_gain,
    set_Q, update_node, with_nodes, biquad_of_config.
  cbn [ctx_nodes ctx_connections ctx_numberOfChannels ctx_length ctx_sampleRate].
  destruct (Q' config) as [q|];
    cbn [ctx_nodes ctx_connections ctx_numberOfChannels ctx_length ctx_sampleRate default];
    rewrite !alter_last; reflexivity.
Qed.

Lemma chain_S (cur k : nat) : chain cur (S k) = (cur, cur + 1) :: chain (cur + 1) k.
Proof.
  unfold chain. cbn [seq map]. rewrite Nat.add_0_r. f_equal.
  rewrite <- seq_shift, map_map. apply map_ext. intros j. f_equal; lia.
Qed.

(** Lines 64 to 69: the loop adds one filter per configuration after the
    current node, each fed by the one before. *)
Lemma connect_filters_spec (configs : list FilterConfig) (ctx : OfflineAudioContext)
    (cur : nat) :
  cur + 1 = List.length (ctx_nodes ctx) ->
  fold_left
    (fun '(offlineCtx, currentNode) filterConfig =>
       let '(offlineCtx, filter) := createFilter offlineCtx filterConfig in
       let offlineCtx := connect offlineCtx currentNode filter in
       (offlineCtx, filter))
    configs (ctx, cur)
  = (mkOfflineAudioContext (ctx_numberOfChannels ctx) (ctx_length ctx) (ctx_sampleRate ctx)
       (ctx_nodes ctx ++ map biquad_of_config configs)
       (ctx_connections ctx ++ chain cur (List.length configs)),
     cur + List.length configs).
Proof.
  revert ctx cur. induction configs as [|c configs IH]; intros ctx cur Hcur.
  - cbn. rewrite !app_nil_r, Nat.add_0_r. now destruct ctx.
  - cbn [fold_left]. rewrite createFilter_spec. cbv beta iota zeta.
    unfold connect, with_nodes.
    cbn [ctx_nodes ctx_connections ctx_numberOfChannels ctx_length ctx_sampleRate].
    rewrite IH by (cbn [ctx_nodes]; rewrite length_app; cbn [List.length]; lia).
    cbn [ctx_nodes ctx_connections ctx_numberOfChannels ctx_length ctx_sampleRate
         List.length map].
    rewrite chain_S, <- !app_assoc, <- Hcur. cbn [app].
    f_equal. lia.
Qed.

Lemma lookup_fresh_dom (σ : Store) : σ !! fresh (dom σ) = None.
Proof. apply not_elem_of_dom, is_fresh. Qed.

(** [processAudio] on arguments the browser supports: the rendering of
    [audio_graph] for the sorted copy of [filters]; the store gains the
    sorted copy and keeps every array it had. *)
Lemma processAudio_supported `{WebAudio} (audioBuffer : AudioBuffer) (σ : Store) :
  supports (numberOfChannels audioBuffer) (buffer_length audioBuffer)
    (buffer_sampleRate audioBuffer) = true ->
  processAudio audioBuffer σ
  = (startRendering
       (audio_graph audioBuffer (Array_sort by_freq (array_contents filters_ref σ))),
     <[fresh (dom σ) := Array_sort by_freq (array_contents filters_ref σ)]> σ).
Proof.
  intros Hs. unfold processAudio, new_OfflineAudioContext. rewrite Hs.
  unfold createBufferSource, new_node, set_buffer, start, update_node, with_nodes,
    array_spread, array_sort.
  cbn [ctx_nodes ctx_connections ctx_numberOfChannels ctx_length ctx_sampleRate
       List.length app].
  set (copy := fresh (dom σ)).
  assert (Hc : array_contents copy
                 (alter (Array_sort (fun a b => (freq a - freq b)%Q)) copy
                    (<[copy := array_contents filters_ref σ]> σ))
               = Array_sort by_freq (array_contents filters_ref σ)).
  { unfold array_contents at 1. now rewrite lookup_alter_eq, lookup_insert_eq. }
  rewrite Hc.
  rewrite connect_filters_spec by reflexivity.
  cbn [ctx_nodes ctx_connections ctx_numberOfChannels ctx_length ctx_sampleRate].
  unfold connect.
  cbn [ctx_nodes ctx_connections ctx_numberOfChannels ctx_length ctx_sampleRate].
  apply (f_equal2 pair).
  - reflexivity.
  - symmetry. apply map_eq. intros i. destruct (decide (i = copy)) as [-> | Hne].
    + now rewrite lookup_alter_eq, !lookup_insert_eq.
    + now rewrite lookup_alter_ne, !lookup_insert_ne by done.
Qed.

Lemma supports_nonzero `{WebAudio} (c l : nat) (r : Z) :
  supports c l r = true -> c <> 0 /\ l <> 0.
Proof.
  unfold supports. intros Hs.
  apply andb_prop in Hs as [Hs _]. apply andb_prop in Hs as [Hs _].
  apply andb_prop in Hs as [Hs Hl]. apply andb_prop in Hs as [Hc _].
  apply Nat.leb_le in Hc, Hl. lia.
Qed.

Lemma processAudio_unsupported `{WebAudio} (audioBuffer : AudioBuffer) (σ : Store) :
  supports (numberOfChannels audioBuffer) (buffer_length audioBuffer)
    (buffer_sampleRate audioBuffer) = false ->
  processAudio audioBuffer σ = (Err NotSupportedError, σ).
Proof.
  intros Hs. unfold processAudio, new_OfflineAudioContext. now rewrite Hs.
Qed.

(** Whatever the buffer, a run leaves the array [filters] as it was. *)
Lemma processAudio_filters `{WebAudio} (audioBuffer : AudioBuffer) (σ : Store)
    (configs : list FilterConfig) :
  σ !! filters_ref = Some configs ->
  (processAudio audioBuffer σ).2 !! filters_ref = Some configs.
Proof.
  intros Hf.
  destruct (supports (numberOfChannels audioBuffer) (buffer_length audioBuffer)
              (buffer_sampleRate audioBuffer)) eqn:Hs.
  - rewrite processAudio_supported by assumption. cbn [snd].
    rewrite lookup_insert_ne; [assumption |].
    intros E. pose proof (lookup_fresh_dom σ) as Hn. rewrite E in Hn. congruence.
  - now rewrite processAudio_unsupported.
Qed.

(** ** What the rendering of that graph gives *)

Section Rendering.

Context `{WebAudio} (audioBuffer : AudioBuffer) (stages : list FilterConfig).

Lemma chain_snoc (cur k : nat) :
  chain cur (S k) = chain cur k ++ [(cur + k, cur + k + 1)].
Proof. unfold chain. now rewrite seq_S, map_app. Qed.

Lemma filter_chain (cur k m : nat) :
  filter (fun e : nat * nat => e.2 =? m) (chain cur k)
  = if decide (cur + 1 <= m < cur + 1 + k) then [(m - 1, m)] else [].
Proof.
  induction k as [|k IH].
  - cbn. destruct (decide _); [lia | reflexivity].
  - rewrite chain_snoc, filter_app, IH, filter_cons, filter_nil. cbn [snd].
    destruct (Nat.eqb_spec (cur + k + 1) m) as [<- | Hne].
    + destruct (decide (Is_true true)) as [_ | Hf]; [| now destruct Hf].
      destruct (decide (cur + 1 <= cur + k + 1 < cur + 1 + k)); [lia |].
      destruct (decide (cur + 1 <= cur + k + 1 < cur + 1 + S k)); [| lia].
      cbn [app]. do 2 f_equal. lia.
    + destruct (decide (Is_true false)) as [Hf | _]; [now destruct Hf |].
      rewrite app_nil_r.
      destruct (decide (cur + 1 <= m < cur + 1 + k)),
               (decide (cur + 1 <= m < cur + 1 + S k)); try lia; reflexivity.
Qed.

Lemma incoming_audio_graph (m : nat) :
  filter (fun e : nat * nat => e.2 =? m) (ctx_connections (audio_graph audioBuffer stages))
  = if decide (m = destination) then [(1 + List.length stages, destination)]
    else if decide (2 <= m < 2 + List.length stages) then [(m - 1, m)] else [].
Proof.
  unfold audio_graph, destination. cbn [ctx_connections].
  rewrite filter_app, filter_chain, filter_cons, filter_nil. cbn [snd].
  destruct (decide (m = 0)) as [-> | Hm].
  - cbn. reflexivity.
  - destruct (Nat.eqb_spec 0 m); [lia |].
    destruct (decide (Is_true false)) as [Hf | _]; [now destruct Hf |].
    now rewrite app_nil_r.
Qed.

Lemma cascade_length (sampleRate : Z) (configs : list FilterConfig) (ch : list number) :
  List.length (cascade sampleRate configs ch) = List.length ch.
Proof.
  unfold cascade. revert ch. induction configs as [|c configs IH]; intros ch; cbn.
  - reflexivity.
  - rewrite IH. apply biquad_length.
Qed.

Lemma cascade_snoc (sampleRate : Z) (configs : list FilterConfig)
    (c : FilterConfig) (ch : list number) :
  cascade sampleRate (configs ++ [c]) ch
  = apply_stage sampleRate (cascade sampleRate configs ch) c.
Proof. unfold cascade. now rewrite fold_left_app. Qed.

Lemma lookup_map {A B : Type} (f : A -> B) (l : list A) (j : nat) (x : A) :
  l !! j = Some x -> map f l !! j = Some (f x).
Proof.
  revert j. induction l as [|y l IH]; intros [|j] Hj; try discriminate; cbn in *.
  - congruence.
  - now apply IH.
Qed.

Lemma audio_graph_nodes :
  ctx_nodes (audio_graph audioBuffer stages) !! destination = Some AudioDestinationNode
  /\ ctx_nodes (audio_graph audioBuffer stages) !! 1
     = Some (AudioBufferSourceNode (Some audioBuffer) true)
  /\ (forall j c, stages !! j = Some c ->
        ctx_nodes (audio_graph audioBuffer stages) !! (2 + j) = Some (biquad_of_config c))
  /\ List.length (ctx_nodes (audio_graph audioBuffer stages)) = 2 + List.length stages.
Proof.
  unfold audio_graph. cbn [ctx_nodes]. repeat split.
  - intros j c Hc. cbn [app Nat.add lookup list_lookup].
    now apply lookup_map.
  - rewrite length_app, length_map. reflexivity.
Qed.

(** The output of the source and of each filter of the graph: the channels
    of the buffer through the stages before it. *)
Lemma node_output_stage (j fuel : nat) :
  j <= List.length stages -> j < fuel ->
  node_output fuel (audio_graph audioBuffer stages) (1 + j)
  = map (cascade (buffer_sampleRate audioBuffer) (take j stages))
      (buffer_channels audioBuffer).
Proof.
  destruct audio_graph_nodes as (_ & Hsrc & Hflt & _).
  revert fuel. induction j as [|j IH]; intros fuel Hj Hfuel;
    (destruct fuel as [|fuel]; [lia |]); cbn [node_output].
  - change (1 + 0) with 1. rewrite Hsrc.
    change (ctx_sampleRate (audio_graph audioBuffer stages))
      with (buffer_sampleRate audioBuffer).
    rewrite Z.eqb_refl, take_0. symmetry. apply map_id.
  - rewrite incoming_audio_graph.
    destruct (decide (1 + S j = destination)) as [E | _]; [discriminate E |].
    destruct (decide (2 <= 1 + S j < 2 + List.length stages)) as [_ | Hn]; [| lia].
    destruct (lookup_lt_is_Some_2 stages j ltac:(lia)) as [c Hc].
    change (1 + S j) with (2 + j). rewrite (Hflt j c Hc). unfold biquad_of_config.
    cbn [map fst]. rewrite mix_one.
    replace (2 + j - 1) with (1 + j) by lia.
    rewrite IH by lia.
    change (ctx_sampleRate (audio_graph audioBuffer stages))
      with (buffer_sampleRate audioBuffer).
    rewrite (take_S_r _ _ _ Hc), map_map. apply map_ext. intros ch.
    now rewrite cascade_snoc.
Qed.

(** What reaches the destination: every channel through all the stages. *)
Lemma node_output_destination (fuel : nat) :
  1 + List.length stages < fuel ->
  node_output fuel (audio_graph audioBuffer stages) destination
  = remix (numberOfChannels audioBuffer)
      (map (cascade (buffer_sampleRate audioBuffer) stages) (buffer_channels audioBuffer)).
Proof.
  destruct audio_graph_nodes as (Hdst & _).
  intros Hfuel. destruct fuel as [|fuel]; [lia |].
  cbn [node_output]. rewrite incoming_audio_graph, Hdst.
  destruct (decide (destination = destination)) as [_ | Hn]; [| now destruct Hn].
  cbn [map fst]. rewrite mix_one, node_output_stage by lia.
  now rewrite firstn_all.
Qed.

Lemma fit_length_same (n : nat) (ch : list number) :
  List.length ch = n -> fit_length n ch = ch.
Proof.
  intros <-. unfold fit_length. now rewrite firstn_all, Nat.sub_diag, app_nil_r.
Qed.

(** The rendered buffer: its shape is the shape given to the constructor,
    and for a well-formed buffer its channels are the cascade outputs. *)
Lemma startRendering_audio_graph :
  exists out,
    startRendering (audio_graph audioBuffer stages) = Ok out
    /\ numberOfChannels out = numberOfChannels audioBuffer
    /\ buffer_length out = buffer_length audioBuffer
    /\ buffer_sampleRate out = buffer_sampleRate audioBuffer
    /\ wf_buffer out
    /\ (wf_buffer audioBuffer ->
        buffer_channels out
        = map (cascade (buffer_sampleRate audioBuffer) stages) (buffer_channels audioBuffer)).
Proof.
  unfold startRendering. eexists. split; [reflexivity |].
  destruct audio_graph_nodes as (_ & _ & _ & Hlen).
  rewrite node_output_destination by lia.
  unfold numberOfChannels at 1, wf_buffer at 1.
  cbn [buffer_channels buffer_length buffer_sampleRate audio_graph ctx_length ctx_sampleRate].
  repeat split.
  - now rewrite length_map, remix_length.
  - apply List.Forall_forall. intros ch Hin. apply in_map_iff in Hin as (ch' & <- & _).
    unfold fit_length. rewrite length_app, length_take, repeat_length. lia.
  - intros Hwf. rewrite remix_same by (rewrite length_map; reflexivity).
    rewrite map_map. apply map_ext_in. intros ch Hin.
    apply fit_length_same. rewrite cascade_length.
    unfold wf_buffer in Hwf. rewrite List.Forall_forall in Hwf. now apply Hwf.
Qed.

End Rendering.

(** ** The renderer *)

(** C4. Whatever list the array [filters] holds, the renderer takes its
    stable sort ascending by [freq], builds one filter per entry in that
    order, source to first filter, each filter to the next, the last to the
    destination, and the rendered channels are the channels of the input,
    each through all the stages in series with the same parameters. *)
Theorem processAudio_sorted_cascade `{WebAudio} (audioBuffer : AudioBuffer) (σ : Store)
    (configs : list FilterConfig) :
  σ !! filters_ref = Some configs ->
  supports (numberOfChannels audioBuffer) (buffer_length audioBuffer)
    (buffer_sampleRate audioBuffer) = true ->
  wf_buffer audioBuffer ->
  let sortedFilters := Array_sort by_freq configs in
  stable_sort_by_freq configs sortedFilters
  /\ (processAudio audioBuffer σ).1
     = startRendering (audio_graph audioBuffer sortedFilters)
  /\ exists out,
       (processAudio audioBuffer σ).1 = Ok out
       /\ buffer_channels out
          = map (cascade (buffer_sampleRate audioBuffer) sortedFilters)
              (buffer_channels audioBuffer).
Proof.
  intros Hf Hs Hwf sortedFilters.
  split; [apply Array_sort_by_freq |].
  rewrite processAudio_supported by assumption. cbn [fst].
  unfold array_contents. rewrite Hf. cbn [default]. fold sortedFilters.
  split; [reflexivity |].
  destruct (startRendering_audio_graph audioBuffer sortedFilters)
    as (out & Hout & _ & _ & _ & _ & Hch).
  exists out. split; [assumption | now apply Hch].
Qed.

Lemma processAudio_sorted_cascade_witness :
  initial_store !! filters_ref = Some filters
  /\ supports 2 3 44100 = true
  /\ wf_buffer demo_buffer
  /\ exists out,
       (processAudio demo_buffer initial_store).1 = Ok out
       /\ buffer_channels out
          = map (cascade 44100 (Array_sort by_freq filters)) (buffer_channels demo_buffer).
Proof.
  assert (Hf : initial_store !! filters_ref = Some filters) by reflexivity.
  assert (Hs : supports 2 3 44100 = true) by reflexivity.
  assert (Hwf : wf_buffer demo_buffer) by (repeat constructor).
  repeat split; try assumption.
  exact (proj2 (proj2 (processAudio_sorted_cascade demo_buffer initial_store filters
                         Hf Hs Hwf))).
Defined.

(** C5. For a buffer the browser accepts (so one with a channel and a
    frame at least), rendering returns a buffer with the channel count, the
    frame count and the sample rate of the input. *)
Theorem processAudio_preserves_shape `{WebAudio} (audioBuffer : AudioBuffer) (σ : Store) :
  supports (numberOfChannels audioBuffer) (buffer_length audioBuffer)
    (buffer_sampleRate audioBuffer) = true ->
  exists out,
    (processAudio audioBuffer σ).1 = Ok out
    /\ numberOfChannels out = numberOfChannels audioBuffer
    /\ buffer_length out = buffer_length audioBuffer
    /\ buffer_sampleRate out = buffer_sampleRate audioBuffer.
Proof.
  intros Hs. rewrite processAudio_supported by assumption. cbn [fst].
  destruct (startRendering_audio_graph audioBuffer
              (Array_sort by_freq (array_contents filters_ref σ)))
    as (out & Hout & Hc & Hl & Hr & _).
  exists out. auto.
Qed.

Lemma processAudio_preserves_shape_witness :
  supports 2 3 44100 = true
  /\ exists out,
       (processAudio demo_buffer initial_store).1 = Ok out
       /\ numberOfChannels out = 2
       /\ buffer_length out = 3
       /\ buffer_sampleRate out = 44100%Z.
Proof.
  assert (Hs : supports 2 3 44100 = true) by reflexivity.
  split; [exact Hs |].
  exact (processAudio_preserves_shape demo_buffer initial_store Hs).
Defined.

(** C3. A decoded buffer with no frame or no channel is refused when the
    renderer constructs its context: [processAudio] throws before it does
    anything else, [handleDrop] reports the failure, and nothing is encoded
    or offered for download. *)
Theorem processAudio_empty_buffer `{WebAudio} (audioBuffer : AudioBuffer) (σ : Store) :
  buffer_length audioBuffer = 0 \/ numberOfChannels audioBuffer = 0 ->
  processAudio audioBuffer σ = (Err NotSupportedError, σ)
  /\ forall file st bytes,
       includes SUPPORTED_AUDIO_TYPES (file_type file) = true ->
       (size file <= MAX_FILE_SIZE)%Z ->
       arrayBuffer file = Ok bytes ->
       decodeAudioData bytes = Ok audioBuffer ->
       handleDrop (Some file) st σ
       = (processing_failed
            (setAudioContextRef
               (setIsProcessing
                  (setFileName (setError (setIsDragging st false) "") (name file)) true)
               true),
          σ, None).
Proof.
  intros Hempty.
  assert (Hp : processAudio audioBuffer σ = (Err NotSupportedError, σ)).
  { apply processAudio_unsupported.
    destruct (supports _ _ _) eqn:Hs; [| reflexivity].
    apply supports_nonzero in Hs. lia. }
  split; [exact Hp |].
  intros file st bytes Htype Hsize Hbytes Hdecode. unfold handleDrop.
  rewrite Htype. cbn [negb].
  destruct (Z.gtb_spec (size file) MAX_FILE_SIZE) as [Hgt | _]; [lia |].
  rewrite Hbytes, Hdecode, Hp. reflexivity.
Qed.

Lemma processAudio_empty_buffer_witness :
  (buffer_length (mkAudioBuffer 44100 0 [[]]) = 0
   \/ numberOfChannels (mkAudioBuffer 44100 0 [[]]) = 0)
  /\ processAudio (mkAudioBuffer 44100 0 [[]]) initial_store
     = (Err NotSupportedError, initial_store)
  /\ (handleDrop (Some empty_file) idle initial_store).2 = None.
Proof.
  assert (He : buffer_length (mkAudioBuffer 44100 0 [[]]) = 0
               \/ numberOfChannels (mkAudioBuffer 44100 0 [[]]) = 0)
    by (left; reflexivity).
  destruct (processAudio_empty_buffer (mkAudioBuffer 44100 0 [[]]) initial_store He)
    as [Hp Hd].
  split; [exact He |]. split; [exact Hp |].
  rewrite (Hd empty_file idle [] eq_refl ltac:(discriminate) eq_refl eq_refl).
  reflexivity.
Defined.

(** ** The array [filters] *)

Lemma handleDrop_store `{WebAudio} (file : option File) (st : ComponentState) (σ : Store) :
  (handleDrop file st σ).1.2 = σ
  \/ exists audioBuffer, (handleDrop file st σ).1.2 = (processAudio audioBuffer σ).2.
Proof.
  unfold handleDrop. destruct file as [file|]; [| now left].
  destruct (negb _); [now left |].
  destruct (size file >? MAX_FILE_SIZE)%Z; [now left |].
  destruct (arrayBuffer file) as [bytes|]; [| now left].
  destruct (decodeAudioData bytes) as [audioBuffer|]; [| now left].
  right. exists audioBuffer.
  destruct (processAudio audioBuffer σ) as [[processedBuffer|e] σ']; [| reflexivity].
  destruct (audioBufferToWav processedBuffer); reflexivity.
Qed.

Lemma handleDrop_filters `{WebAudio} (file : option File) (st : ComponentState) (σ : Store)
    (configs : list FilterConfig) :
  σ !! filters_ref = Some configs ->
  (handleDrop file st σ).1.2 !! filters_ref = Some configs.
Proof.
  intros Hf. destruct (handleDrop_store file st σ) as [-> | [b ->]]; [assumption |].
  now apply processAudio_filters.
Qed.

(** C10. No run changes the array [filters]: the renderer sorts a copy, an
    array of its own reference, so after any number of renderings, and after
    any number of dropped files, [filters] holds its four entries in their
    order. *)
Theorem filters_never_mutated `{WebAudio} :
  (forall audioBuffer σ, is_Some (σ !! filters_ref) ->
     supports (numberOfChannels audioBuffer) (buffer_length audioBuffer)
       (buffer_sampleRate audioBuffer) = true ->
     exists copy,
       copy <> filters_ref
       /\ σ !! copy = None
       /\ (processAudio audioBuffer σ).2
          = <[copy := Array_sort by_freq (array_contents filters_ref σ)]> σ)
  /\ (forall buffers,
        fold_left (fun σ audioBuffer => (processAudio audioBuffer σ).2) buffers initial_store
          !! filters_ref = Some filters)
  /\ (forall files st, (handleDrops files st initial_store).2 !! filters_ref = Some filters).
Proof.
  split; [| split].
  - intros audioBuffer σ [configs Hf] Hs. exists (fresh (dom σ)).
    pose proof (lookup_fresh_dom σ) as Hn.
    split; [intros E; rewrite E in Hn; congruence |].
    split; [exact Hn |].
    now rewrite processAudio_supported.
  - intros buffers.
    assert (Hgen : forall σ, σ !! filters_ref = Some filters ->
              fold_left (fun σ audioBuffer => (processAudio audioBuffer σ).2) buffers σ
                !! filters_ref = Some filters).
    { induction buffers as [|b buffers IH]; intros σ Hf; [exact Hf |].
      cbn [fold_left]. apply IH. now apply processAudio_filters. }
    apply Hgen. reflexivity.
  - intros files.
    assert (Hgen : forall st σ, σ !! filters_ref = Some filters ->
              (handleDrops files st σ).2 !! filters_ref = Some filters).
    { unfold handleDrops. induction files as [|f files IH]; intros st σ Hf; [exact Hf |].
      cbn [fold_left].
      destruct (handleDrop f st σ) as [[st' σ'] d] eqn:E. cbn [fst].
      apply IH. pose proof (handleDrop_filters f st σ filters Hf) as Hk.
      now rewrite E in Hk. }
    intros st. apply Hgen. reflexivity.
Qed.

(** C7. The static configuration has exactly the four entries of section 3,
    in this order; the last has no Q, and [createFilter] then leaves the Q of
    the new filter node at the value the node is created with. *)
Theorem filters_reference_curve :
  List.length filters = 4
  /\ Forall2 same_config filters reference_curve
  /\ (exists c, filters !! 3 = Some c /\ Q' c = None)
  /\ (forall ctx c, Q' c = None ->
        ctx_nodes (createFilter ctx c).1 !! (createFilter ctx c).2
        = Some (BiquadFilterNode (type c) (freq c) (gain c) 1)).
Proof.
  split; [reflexivity |]. split.
  - unfold filters, reference_curve.
    repeat (constructor; [cbn; repeat split; reflexivity |]). constructor.
  - split; [eexists; split; reflexivity |].
    intros ctx c Hq. rewrite createFilter_spec. cbn [fst snd].
    unfold with_nodes, biquad_of_config. cbn [ctx_nodes]. rewrite Hq. cbn [default].
    rewrite lookup_app_r by lia. now rewrite Nat.sub_diag.
Qed.

(** ** The size gate *)

(** C8. The size gate turns a file away exactly when its size is above
    1,073,741,824 bytes: a larger file never gets past the two gates, so
    nothing of it is read, decoded or rendered; the handler ends with the
    size message exactly for the files of an accepted type above the limit;
    and a file of an accepted type of at most that size, one of exactly
    1,073,741,824 bytes too, goes on to processing. *)
Theorem handleDrop_size_gate `{WebAudio} (file : File) (st : ComponentState) (σ : Store) :
  MAX_FILE_SIZE = 1073741824%Z
  /\ ((size file > 1073741824)%Z ->
      handleDrop (Some file) st σ = (type_rejected st, σ, None)
      \/ handleDrop (Some file) st σ = (size_rejected st, σ, None))
  /\ (handleDrop (Some file) st σ = (size_rejected st, σ, None) <->
      includes SUPPORTED_AUDIO_TYPES (file_type file) = true
      /\ (size file > 1073741824)%Z)
  /\ (includes SUPPORTED_AUDIO_TYPES (file_type file) = true ->
      (size file <= 1073741824)%Z ->
      fileName (handleDrop (Some file) st σ).1.1 = name file
      /\ audioContextRef (handleDrop (Some file) st σ).1.1
         = match arrayBuffer file with Ok _ => true | Err _ => audioContextRef st end).
Proof.
  assert (Hmax : MAX_FILE_SIZE = 1073741824%Z) by reflexivity.
  assert (Hpass : includes SUPPORTED_AUDIO_TYPES (file_type file) = true ->
            (size file <= 1073741824)%Z ->
            fileName (handleDrop (Some file) st σ).1.1 = name file
            /\ audioContextRef (handleDrop (Some file) st σ).1.1
               = match arrayBuffer file with Ok _ => true | Err _ => audioContextRef st end
            /\ error (handleDrop (Some file) st σ).1.1
               <> "File size must be less than 1GB"%string).
  { intros Htype Hle. unfold handleDrop. rewrite Htype. cbn [negb].
    destruct (Z.gtb_spec (size file) MAX_FILE_SIZE) as [Hgt | _]; [lia |].
    destruct (arrayBuffer file) as [bytes|]; [| repeat split; discriminate].
    destruct (decodeAudioData bytes) as [audioBuffer|]; [| repeat split; discriminate].
    destruct (processAudio audioBuffer σ) as [[processedBuffer|e] σ'];
      [| repeat split; discriminate].
    destruct (audioBufferToWav processedBuffer); repeat split; discriminate. }
  assert (Hsize : includes SUPPORTED_AUDIO_TYPES (file_type file) = true ->
            (size file > 1073741824)%Z ->
            handleDrop (Some file) st σ = (size_rejected st, σ, None)).
  { intros Htype Hgt. unfold handleDrop. rewrite Htype. cbn [negb].
    destruct (Z.gtb_spec (size file) MAX_FILE_SIZE) as [_ | Hle]; [reflexivity | lia]. }
  assert (Htype : includes SUPPORTED_AUDIO_TYPES (file_type file) = false ->
            handleDrop (Some file) st σ = (type_rejected st, σ, None)).
  { intros Hf. unfold handleDrop. now rewrite Hf. }
  split; [exact Hmax |]. split; [| split].
  - intros Hgt. destruct (includes SUPPORTED_AUDIO_TYPES (file_type file)) eqn:Ht.
    + right. now apply Hsize.
    + left. now apply Htype.
  - split.
    + intros E. destruct (includes SUPPORTED_AUDIO_TYPES (file_type file)) eqn:Ht.
      * split; [reflexivity |].
        destruct (Z_gt_le_dec (size file) 1073741824) as [Hgt | Hle]; [exact Hgt |].
        destruct (Hpass eq_refl Hle) as (_ & _ & Herr). exfalso. apply Herr. now rewrite E.
      * rewrite (Htype eq_refl) in E. discriminate E.
    + intros [Ht Hgt]. now apply Hsize.
  - intros Ht Hle. destruct (Hpass Ht Hle) as (? & ? & _). now split.
Qed.

Lemma handleDrop_size_gate_witness :
  includes SUPPORTED_AUDIO_TYPES (file_type limit_file) = true
  /\ (size limit_file <= 1073741824)%Z
  /\ fileName (handleDrop (Some limit_file) idle initial_store).1.1 = name limit_file.
Proof.
  assert (Ht : includes SUPPORTED_AUDIO_TYPES (file_type limit_file) = true) by reflexivity.
  assert (Hle : (size limit_file <= 1073741824)%Z) by (vm_compute; discriminate).
  split; [exact Ht |]. split; [exact Hle |].
  exact (proj1 (proj2 (proj2 (proj2 (handleDrop_size_gate limit_file idle initial_store)))
                  Ht Hle)).
Defined.

(** ** The name of the download *)

Lemma lastIndexOf_from_absent (s : string) (c : ascii) (i : nat) (found : Z) :
  contains c s = false -> lastIndexOf_from s c i found = found.
Proof.
  unfold contains. revert i found.
  induction s as [|a s IH]; intros i found Hc;
    cbn [lastIndexOf_from list_ascii_of_string existsb] in *.
  - reflexivity.
  - apply orb_false_elim in Hc as [Ha Hs]. rewrite Ascii.eqb_sym in Ha. rewrite Ha.
    now apply IH.
Qed.

Lemma append_nil_l (t : string) : (EmptyString ++ t)%string = t.
Proof. reflexivity. Qed.

Lemma append_cons (a : ascii) (s t : string) :
  (String a s ++ t)%string = String a (s ++ t).
Proof. reflexivity. Qed.

Lemma lastIndexOf_from_last (stem ext : string) (c : ascii) (i : nat) (found : Z) :
  contains c ext = false ->
  lastIndexOf_from (stem ++ String c ext) c i found = Z.of_nat (i + String.length stem).
Proof.
  intros Hc. revert i found.
  induction stem as [|a stem IH]; intros i found;
    rewrite ?append_nil_l, ?append_cons; cbn [lastIndexOf_from String.length].
  - rewrite Ascii.eqb_refl, lastIndexOf_from_absent by assumption. f_equal. lia.
  - rewrite IH. f_equal. lia.
Qed.

Lemma substring_prefix (s t : string) :
  String.substring 0 (String.length s) (s ++ t) = s.
Proof.
  induction s as [|a s IH]; rewrite ?append_nil_l, ?append_cons;
    cbn [String.length String.substring].
  - now destruct t.
  - now rewrite IH.
Qed.

Lemma substring_all (t : string) : String.substring 0 (String.length t) t = t.
Proof. induction t as [|a t IH]; cbn; [reflexivity | now rewrite IH]. Qed.

Lemma substring_suffix (s t : string) (n : nat) :
  String.substring (String.length s) n (s ++ t) = String.substring 0 n t.
Proof.
  induction s as [|a s IH]; rewrite ?append_nil_l, ?append_cons;
    cbn [String.length String.substring]; [reflexivity | exact IH].
Qed.

Lemma length_append (s t : string) :
  String.length (s ++ t) = String.length s + String.length t.
Proof.
  induction s as [|a s IH]; rewrite ?append_nil_l, ?append_cons;
    cbn [String.length]; [reflexivity | now rewrite IH].
Qed.

Lemma contains_split (c : ascii) (s : string) :
  contains c s = true ->
  exists stem ext, s = (stem ++ String c ext)%string /\ contains c ext = false.
Proof.
  unfold contains. induction s as [|a s IH]; cbn; [discriminate |].
  destruct (existsb (Ascii.eqb c) (list_ascii_of_string s)) eqn:Hs.
  - intros _. destruct (IH eq_refl) as (stem & ext & -> & Hext).
    exists (String a stem), ext. now split.
  - rewrite orb_false_r. intros Ha. apply Ascii.eqb_eq in Ha as <-.
    exists EmptyString, s. now split.
Qed.

(** C9. The name of the download is the name of the file with -EQ put
    before its last dot, and with -EQ put at its end when it has no dot;
    every name is of one of the two kinds. *)
Theorem newFileName_inserts_suffix :
  (forall stem ext : string,
     contains "." ext = false ->
     newFileName (stem ++ "." ++ ext) = (stem ++ "-EQ" ++ "." ++ ext)%string)
  /\ (forall name : string,
        contains "." name = false -> newFileName name = (name ++ "-EQ")%string)
  /\ (forall name : string,
        contains "." name = true ->
        exists stem ext, name = (stem ++ "." ++ ext)%string /\ contains "." ext = false)
  /\ (forall `{WebAudio} file st σ d,
        (handleDrop (Some file) st σ).2 = Some d -> download d = newFileName (name file)).
Proof.
  split; [| split; [| split]].
  - intros stem ext Hext. unfold newFileName, lastIndexOf.
    change ("." ++ ext)%string with (String "." ext).
    rewrite lastIndexOf_from_last by assumption. cbn [Nat.add].
    destruct (Z.eqb_spec (Z.of_nat (String.length stem)) (-1)) as [E | _]; [lia |].
    cbn [negb]. rewrite Nat2Z.id. unfold slice_to, slice_from.
    rewrite substring_prefix, substring_suffix, length_append.
    replace (_ + _ - _) with (String.length (String "." ext)) by lia.
    now rewrite substring_all.
  - intros name Hname. unfold newFileName, lastIndexOf.
    now rewrite lastIndexOf_from_absent.
  - intros name Hname. apply contains_split in Hname as (stem & ext & -> & Hext).
    now exists stem, ext.
  - intros H file st σ d. unfold handleDrop.
    destruct (negb _); [discriminate |].
    destruct (size file >? MAX_FILE_SIZE)%Z; [discriminate |].
    destruct (arrayBuffer file) as [bytes|]; [| discriminate].
    destruct (decodeAudioData bytes) as [audioBuffer|]; [| discriminate].
    destruct (processAudio audioBuffer σ) as [[processedBuffer|e] σ']; [| discriminate].
    destruct (audioBufferToWav processedBuffer); [| discriminate].
    cbn [snd]. intros [= <-]. reflexivity.
Qed.

Lemma newFileName_inserts_suffix_witness :
  contains "." "mp3" = false
  /\ newFileName "my.song.mp3" = "my.song-EQ.mp3"%string
  /\ contains "." "recording" = false
  /\ newFileName "recording" = "recording-EQ"%string.
Proof.
  assert (H1 : contains "." "mp3" = false) by reflexivity.
  assert (H2 : contains "." "recording" = false) by reflexivity.
  split; [exact H1 |]. split; [| split; [exact H2 |]].
  - exact (proj1 newFileName_inserts_suffix "my.song"%string "mp3"%string H1).
  - exact (proj1 (proj2 newFileName_inserts_suffix) "recording"%string H2).
Defined.

(** ** A run from end to end

    With the sample browser, a dropped MP3 of three bytes comes back as a
    mono WAV of three frames under the name song-EQ.mp3. *)
Example handleDrop_small_file :
  let r := handleDrop (Some small_file) idle initial_store in
  r.2 = Some (mkDownload "song-EQ.mp3" "audio/mpeg"
                [82; 73; 70; 70; 42; 0; 0; 0; 87; 65; 86; 69; 102; 109; 116; 32;
                 16; 0; 0; 0; 1; 0; 1; 0; 68; 172; 0; 0; 136; 88; 1; 0; 2; 0; 16; 0;
                 100; 97; 116; 97; 6; 0; 0; 0; 0; 128; 0; 0; 255; 126]%Z)
  /\ r.1.1 = mkComponentState false "song.mp3" false "" true
  /\ r.1.2 !! filters_ref = Some filters.
Proof. vm_compute. repeat split; reflexivity. Qed.

(** * Further properties

    ** The encoder *)

Lemma for_loop_preserves {S : Type} (P : S -> Prop) (n : nat)
    (body : nat -> S -> option S) (s s' : S) :
  (forall i t t', i < n -> body i t = Some t' -> P t -> P t') ->
  P s -> for_loop n body s = Some s' -> P s'.
Proof.
  revert s'. induction n as [|n IH]; intros s' Hstep Hs Hrun.
  - injection Hrun as <-. exact Hs.
  - rewrite for_loop_S in Hrun.
    destruct (for_loop n body s) as [t|] eqn:Ht; [| discriminate].
    cbn [mbind option_bind] in Hrun.
    apply (Hstep n t s'); [lia | exact Hrun |].
    apply IH; [intros i u u' Hi; apply Hstep; lia | exact Hs | reflexivity].
Qed.

Lemma for_loop_None {S : Type} (n m : nat) (body : nat -> S -> option S) (s : S) :
  for_loop n body s = None -> n <= m -> for_loop m body s = None.
Proof.
  intros Hn Hle. induction Hle as [|m Hle IH]; [exact Hn |].
  now rewrite for_loop_S, IH.
Qed.

Lemma le_bytes_bytes (n : nat) (v : Z) : Forall is_byte (le_bytes n v).
Proof.
  revert v. induction n as [|n IH]; intros v; cbn [le_bytes]; constructor.
  - unfold is_byte. apply Z.mod_pos_bound. lia.
  - apply IH.
Qed.

Lemma write_bytes_bytes (bs view : list Z) (o : nat) :
  Forall is_byte bs -> Forall is_byte view -> Forall is_byte (write_bytes view o bs).
Proof.
  revert view o. induction bs as [|b bs IH]; intros view o Hbs Hv; cbn [write_bytes].
  - exact Hv.
  - apply Forall_cons in Hbs as [Hb Hbs]. apply IH; [exact Hbs |].
    now apply Forall_insert.
Qed.

Lemma SetViewValue_bytes (view view' : list Z) (o size : nat) (raw : Z) (le : bool) :
  SetViewValue view o size raw le = Some view' ->
  Forall is_byte view -> Forall is_byte view'.
Proof.
  unfold SetViewValue. destruct (_ <=? _); [| discriminate].
  intros [= <-] Hv. apply write_bytes_bytes; [| exact Hv].
  destruct le; [| apply Forall_rev]; apply le_bytes_bytes.
Qed.

Lemma char_codes_bytes (s : string) : Forall is_byte (char_codes s).
Proof.
  unfold char_codes. induction s as [|c s IH]; cbn; constructor; [| exact IH].
  pose proof (nat_ascii_bounded c). unfold is_byte. lia.
Qed.

Lemma u32le_bytes (v : Z) : Forall is_byte (u32le v).
Proof. rewrite <- le_bytes_ToUint32. apply le_bytes_bytes. Qed.

Lemma u16le_bytes (v : Z) : Forall is_byte (u16le v).
Proof. rewrite <- le_bytes_ToUint16. apply le_bytes_bytes. Qed.

Lemma wav_header_bytes (C L : nat) (r : Z) : Forall is_byte (wav_header C L r).
Proof.
  unfold wav_header. cbv zeta.
  repeat (apply Forall_app; split);
    first [apply char_codes_bytes | apply u32le_bytes | apply u16le_bytes].
Qed.

Lemma write_data_bytes (buffer : AudioBuffer) (view wav : list Z) :
  write_data buffer view = Some wav -> Forall is_byte view -> Forall is_byte wav.
Proof.
  unfold write_data. cbv zeta. intros Hrun Hv.
  match type of Hrun with
  | context [for_loop ?n ?body ?init] =>
      destruct (for_loop n body init) as [[cd v]|] eqn:Hloop; [| discriminate];
      pose proof (for_loop_preserves (fun st : list number * list Z => Forall is_byte st.2)
                    n body init (cd, v)) as Hp
  end.
  cbn [mbind option_bind] in Hrun. injection Hrun as <-.
  apply Hp; [| exact Hv | exact Hloop].
  intros c [cd0 t] [cd1 t'] _ Hbody Ht. cbn [snd] in *.
  destruct (copyFromChannel buffer cd0 c) as [cd2|]; [| discriminate].
  cbn [mbind option_bind] in Hbody.
  match type of Hbody with
  | context [for_loop ?n ?body ?init] =>
      destruct (for_loop n body init) as [t2|] eqn:Hin; [| discriminate];
      pose proof (for_loop_preserves (Forall is_byte) n body init t2) as Hq
  end.
  cbn [mbind option_bind] in Hbody. injection Hbody as _ <-.
  apply Hq; [| exact Ht | exact Hin].
  intros i u u' _ Hset Hu. cbv zeta in Hset. unfold setInt16 in Hset.
  now apply (SetViewValue_bytes u u' _ _ _ _ Hset).
Qed.

(** Every element of the output of the encoder is a byte: an integer of
    0 to 255. *)
Theorem audioBufferToWav_bytes (buffer : AudioBuffer) :
  exists wav, audioBufferToWav buffer = Some wav /\ Forall is_byte wav.
Proof.
  destruct (audioBufferToWav_returns buffer) as (wav & Hw & _).
  exists wav. split; [exact Hw |].
  rewrite audioBufferToWav_phases in Hw.
  apply (write_data_bytes buffer _ wav Hw).
  apply Forall_app. split; [apply wav_header_bytes |].
  apply Forall_forall. intros b Hb. apply list_elem_of_In, repeat_spec in Hb as ->.
  unfold is_byte. lia.
Qed.

Lemma le_value_u32le (v : Z) : le_value (u32le v) = (v mod 2 ^ 32)%Z.
Proof.
  change (2 ^ 32)%Z with 4294967296%Z. unfold le_value, u32le. cbn [fold_right].
  Z.div_mod_to_equations. lia.
Qed.

Lemma le_value_u16le (v : Z) : le_value (u16le v) = (v mod 2 ^ 16)%Z.
Proof.
  change (2 ^ 16)%Z with 65536%Z. unfold le_value, u16le. cbn [fold_right].
  Z.div_mod_to_equations. lia.
Qed.

Lemma field_of_header (wav : list Z) (off len : nat) :
  off + len <= 44 -> field wav off len = field (take 44 wav) off len.
Proof.
  intros H. unfold field. f_equal.
  rewrite !take_drop_commute, take_take. do 2 f_equal. lia.
Qed.

(** The numbers the header spells, read back from the output: the RIFF size
    is the length of the file less 8 and the data size its length less 44,
    both modulo 2^32 (so exact below 4 GiB); the channel count and the block
    alignment are held modulo 2^16, the sample rate and the byte rate modulo
    2^32; the chunk size, the format tag and the bit depth are 16, 1 and 16. *)
Theorem audioBufferToWav_fields (buffer : AudioBuffer) :
  exists wav,
    audioBufferToWav buffer = Some wav
    /\ field wav 4 4 = ((Z.of_nat (List.length wav) - 8) mod 2 ^ 32)%Z
    /\ field wav 16 4 = 16%Z
    /\ field wav 20 2 = 1%Z
    /\ field wav 22 2 = (Z.of_nat (numberOfChannels buffer) mod 2 ^ 16)%Z
    /\ field wav 24 4 = (buffer_sampleRate buffer mod 2 ^ 32)%Z
    /\ field wav 28 4
       = ((buffer_sampleRate buffer * Z.of_nat (numberOfChannels buffer * 2)) mod 2 ^ 32)%Z
    /\ field wav 32 2 = (Z.of_nat (numberOfChannels buffer * 2) mod 2 ^ 16)%Z
    /\ field wav 34 2 = 16%Z
    /\ field wav 40 4 = ((Z.of_nat (List.length wav) - 44) mod 2 ^ 32)%Z.
Proof.
  destruct (audioBufferToWav_returns buffer) as (wav & Hw & Hl & Hh & _).
  exists wav. split; [exact Hw |].
  rewrite !(field_of_header wav) by lia. rewrite Hh, Hl.
  unfold wav_header. cbv zeta.
  repeat match goal with
         | |- context [char_codes ?s] =>
             let x := eval vm_compute in (char_codes s) in change (char_codes s) with x
         end.
  unfold field.
  repeat split;
    match goal with
    | |- le_value (take 4 (drop ?o _)) = _ =>
        match goal with
        | |- context [drop o (?l)] =>
            let t := eval cbn [firstn skipn app u32le u16le] in (take 4 (drop o l)) in
            change (take 4 (drop o l)) with t
        end
    | |- le_value (take 2 (drop ?o _)) = _ =>
        match goal with
        | |- context [drop o (?l)] =>
            let t := eval cbn [firstn skipn app u32le u16le] in (take 2 (drop o l)) in
            change (take 2 (drop o l)) with t
        end
    end.
  all: match goal with
       | |- le_value [(?a mod 256)%Z; _; _; _] = _ =>
           transitivity (le_value (u32le a));
           [reflexivity | rewrite le_value_u32le; first [reflexivity | f_equal; lia]]
       | |- le_value [(?a mod 256)%Z; _] = _ =>
           transitivity (le_value (u16le a));
           [reflexivity | rewrite le_value_u16le; reflexivity]
       end.
Qed.

(** A buffer with no frame, or with no channel, is encoded without an
    exception, to the 44 bytes of a header whose data size is 0. *)
Theorem audioBufferToWav_no_samples (buffer : AudioBuffer) :
  buffer_length buffer = 0 \/ numberOfChannels buffer = 0 ->
  audioBufferToWav buffer
  = Some (wav_header (numberOfChannels buffer) (buffer_length buffer)
            (buffer_sampleRate buffer))
  /\ field (wav_header (numberOfChannels buffer) (buffer_length buffer)
              (buffer_sampleRate buffer)) 40 4 = 0%Z.
Proof.
  intros Hz.
  destruct (audioBufferToWav_returns buffer) as (wav & Hw & Hl & Hh & _).
  assert (Hn : buffer_length buffer * (numberOfChannels buffer * 2) = 0) by nia.
  split.
  - rewrite Hw, <- Hh. f_equal. symmetry. apply take_ge. lia.
  - unfold field, wav_header. cbv zeta. rewrite Hn.
    repeat match goal with
           | |- context [char_codes ?s] =>
               let x := eval vm_compute in (char_codes s) in change (char_codes s) with x
           end.
    reflexivity.
Qed.

Lemma audioBufferToWav_no_samples_witness :
  (buffer_length no_frames = 0 \/ numberOfChannels no_frames = 0)
  /\ audioBufferToWav no_frames = Some (wav_header 2 0 48000).
Proof.
  assert (H : buffer_length no_frames = 0 \/ numberOfChannels no_frames = 0)
    by (left; reflexivity).
  split; [exact H | exact (proj1 (audioBufferToWav_no_samples no_frames H))].
Defined.

(** [writeString] returns exactly when its string is empty or fits in the
    view from its offset; it then has written the character codes there and
    nothing else. Otherwise it throws the RangeError of [setUint8]. *)
Theorem writeString_fits (view : list Z) (offset : nat) (s : string) :
  (is_Some (writeString view offset s) <->
   String.length s = 0 \/ offset + String.length s <= List.length view)
  /\ forall view', writeString view offset s = Some view' ->
       List.length view' = List.length view
       /\ forall k, view' !! k
                    = if decide (offset <= k < offset + String.length s)
                      then char_codes s !! (k - offset) else view !! k.
Proof.
  assert (Hfit : offset + String.length s <= List.length view ->
            writeString view offset s = Some (write_bytes view offset (char_codes s)))
    by apply writeString_ok.
  assert (Hempty : String.length s = 0 -> writeString view offset s = Some view).
  { intros H0. unfold writeString. now rewrite H0. }
  assert (Hover : String.length s <> 0 -> List.length view < offset + String.length s ->
            writeString view offset s = None).
  { intros Hne Hlt. unfold writeString.
    destruct (String.length s) as [|n] eqn:Hn; [congruence |].
    rewrite for_loop_S.
    destruct (for_loop n _ view) as [v|] eqn:Hv; [| reflexivity].
    cbn [mbind option_bind].
    assert (Hlen : List.length v = List.length view).
    { apply (for_loop_preserves (fun t => List.length t = List.length view)
               n (fun i view => setUint8 view (offset + i) (charCodeAt s i)) view v);
        [| reflexivity | exact Hv].
      intros i t t' _ Hset Ht. unfold setUint8, SetViewValue in Hset.
      destruct (_ <=? _); [| discriminate].
      assert (E : t' = write_bytes t (offset + i)
                         (le_bytes 1 (ToUint8 (charCodeAt s i)))) by congruence.
      now rewrite E, length_write_bytes. }
    unfold setUint8, SetViewValue.
    destruct (Nat.leb_spec (offset + n + 1) (List.length v)); [lia | reflexivity]. }
  split.
  - split.
    + intros [v Hv]. destruct (String.length s) as [|n] eqn:Hn; [now left | right].
      destruct (le_lt_dec (offset + S n) (List.length view)) as [Hle | Hlt]; [exact Hle |].
      rewrite Hover in Hv; [discriminate | lia | lia].
    + intros [H0 | Hle]; [rewrite (Hempty H0) | rewrite (Hfit Hle)]; eauto.
  - intros view' Hw.
    destruct (Nat.eq_dec (String.length s) 0) as [H0 | Hne].
    + rewrite (Hempty H0) in Hw. injection Hw as <-. split; [reflexivity |].
      intros k. rewrite H0. destruct (decide _); [lia | reflexivity].
    + destruct (le_lt_dec (offset + String.length s) (List.length view)) as [Hle | Hlt].
      * rewrite (Hfit Hle) in Hw. injection Hw as <-.
        split; [apply length_write_bytes |]. intros k.
        destruct (decide (offset <= k < offset + String.length s)) as [Hin | Hout].
        -- replace k with (offset + (k - offset)) at 1 by lia.
           rewrite lookup_write_bytes_inside by (rewrite length_char_codes; lia).
           rewrite length_char_codes. destruct (decide _); [reflexivity | lia].
        -- apply lookup_write_bytes_outside. rewrite length_char_codes. lia.
      * rewrite (Hover Hne Hlt) in Hw. discriminate.
Qed.

(** ** The 16-bit value of a sample *)

Lemma quot_monotone (a c : Z) (b d : positive) :
  (a * Z.pos d <= c * Z.pos b)%Z -> (Z.quot a (Z.pos b) <= Z.quot c (Z.pos d))%Z.
Proof.
  intros H.
  destruct (Z_le_gt_dec 0 a) as [Ha | Ha]; destruct (Z_le_gt_dec 0 c) as [Hc | Hc].
  - Z.quot_rem_to_equations.
    match goal with
    | |- (?x <= ?y)%Z => destruct (Z_le_gt_dec x y) as [| Hgt]; [assumption | exfalso]
    end.
    assert (Z.pos b * (q0 + 1) <= Z.pos b * q)%Z by nia. nia.
  - exfalso. assert (0 <= a * Z.pos d)%Z by nia. assert (c * Z.pos b < 0)%Z by nia. lia.
  - apply Z.le_trans with 0%Z.
    + apply Z.quot_le_upper_bound; lia.
    + apply Z.quot_pos; lia.
  - Z.quot_rem_to_equations.
    match goal with
    | |- (?x <= ?y)%Z => destruct (Z_le_gt_dec x y) as [| Hgt]; [assumption | exfalso]
    end.
    assert (Z.pos d * (q0 + 1) <= Z.pos d * q)%Z by nia. nia.
Qed.

Lemma truncate_monotone (p q : Q) :
  (p <= q)%Q -> (truncate (Finite p) <= truncate (Finite q))%Z.
Proof.
  destruct p as [a b], q as [c d]. unfold Qle. cbn. apply quot_monotone.
Qed.

Lemma scale_monotone (p q : Q) (k : Z) :
  (0 <= k)%Z -> (p <= q)%Q -> (p * inject_Z k <= q * inject_Z k)%Q.
Proof.
  intros Hk Hpq. apply Qmult_le_compat_r; [exact Hpq |].
  unfold Qle. cbn. lia.
Qed.

(** The encoder keeps the order of the samples: a larger sample never gets
    a smaller 16-bit value. The infinities sit at the two ends, -32768 and
    32767, and a NaN is written as 0. *)
Theorem sample_to_int16_monotone :
  (forall p q : Q,
     (p <= q)%Q -> (sample_to_int16 (Finite p) <= sample_to_int16 (Finite q))%Z)
  /\ sample_to_int16 (Infinity true) = (-32768)%Z
  /\ sample_to_int16 (Infinity false) = 32767%Z
  /\ sample_to_int16 NaN = 0%Z.
Proof.
  split; [| repeat split; reflexivity].
  intros p q Hpq.
  destruct (sample_to_int16_spec (Finite p)) as [_ Hp].
  destruct (sample_to_int16_spec (Finite q)) as [_ Hq].
  destruct (Qlt_le_dec (inject_Z (-1)) p) as [Hp1 | Hp1];
    [| rewrite (sample_to_int16_low p Hp1); lia].
  destruct (Qlt_le_dec q (inject_Z 1)) as [Hq1 | Hq1];
    [| rewrite (sample_to_int16_high q Hq1); lia].
  assert (Hp2 : (p <= inject_Z 1)%Q)
    by (apply Qlt_le_weak, Qle_lt_trans with q; assumption).
  assert (Hq2 : (inject_Z (-1) <= q)%Q)
    by (apply Qlt_le_weak, Qlt_le_trans with p; assumption).
  apply Qlt_le_weak in Hp1, Hq1.
  destruct (Qlt_le_dec q (inject_Z 0)) as [Hq0 | Hq0].
  - assert (Hp0 : (p < inject_Z 0)%Q) by (now apply Qle_lt_trans with q).
    rewrite (sample_to_int16_negative p Hp1 Hp0), (sample_to_int16_negative q Hq2 Hq0).
    apply truncate_monotone, scale_monotone; [lia | exact Hpq].
  - destruct (Qlt_le_dec p (inject_Z 0)) as [Hp0 | Hp0].
    + rewrite (sample_to_int16_negative p Hp1 Hp0), (sample_to_int16_nonnegative q Hq0 Hq1).
      pose proof (proj1 (truncate_scaled_sign p 32768 ltac:(lia)) Hp0).
      pose proof (proj2 (truncate_scaled_sign q 32767 ltac:(lia)) Hq0). lia.
    + rewrite (sample_to_int16_nonnegative p Hp0 Hp2), (sample_to_int16_nonnegative q Hq0 Hq1).
      apply truncate_monotone, scale_monotone; [lia | exact Hpq].
Qed.

Lemma truncate_error (x : Q) :
  ((0 <= x)%Q ->
     (inject_Z (truncate (Finite x)) <= x)%Q /\ (x < inject_Z (truncate (Finite x)) + 1)%Q)
  /\ ((x <= 0)%Q ->
      (x <= inject_Z (truncate (Finite x)))%Q /\ (inject_Z (truncate (Finite x)) - 1 < x)%Q).
Proof.
  destruct x as [a b]. unfold Qle, Qlt. cbn.
  split; intros H; rewrite ?Z.mul_1_r in *; Z.quot_rem_to_equations; nia.
Qed.

(** The quantisation error is under one step and goes towards zero: for a
    sample [q] of [-1, 1], the 16-bit value [v] has
    q x 32768 <= v < q x 32768 + 1 when q is negative and
    q x 32767 - 1 < v <= q x 32767 otherwise. *)
Theorem sample_to_int16_error (q : Q) :
  (inject_Z (-1) <= q)%Q -> (q <= inject_Z 1)%Q ->
  let v := inject_Z (sample_to_int16 (Finite q)) in
  ((q < inject_Z 0)%Q ->
     (q * inject_Z 32768 <= v)%Q /\ (v - 1 < q * inject_Z 32768)%Q)
  /\ ((inject_Z 0 <= q)%Q ->
      (v <= q * inject_Z 32767)%Q /\ (q * inject_Z 32767 < v + 1)%Q).
Proof.
  intros Hlo Hhi v. subst v. split; intros Hs.
  - rewrite (sample_to_int16_negative q Hlo Hs).
    apply (proj2 (truncate_error (q * inject_Z 32768))).
    rewrite <- (Qmult_0_l (inject_Z 32768)).
    apply scale_monotone; [lia | now apply Qlt_le_weak].
  - rewrite (sample_to_int16_nonnegative q Hs Hhi).
    apply (proj1 (truncate_error (q * inject_Z 32767))).
    rewrite <- (Qmult_0_l (inject_Z 32767)).
    apply scale_monotone; [lia | exact Hs].
Qed.

Lemma sample_to_int16_error_witness :
  (inject_Z (-1) <= 0.5)%Q /\ (0.5 <= inject_Z 1)%Q
  /\ (inject_Z (sample_to_int16 (Finite 0.5)) <= 0.5 * inject_Z 32767)%Q
  /\ (0.5 * inject_Z 32767 < inject_Z (sample_to_int16 (Finite 0.5)) + 1)%Q.
Proof.
  assert (H1 : (inject_Z (-1) <= 0.5)%Q) by (vm_compute; discriminate).
  assert (H2 : (0.5 <= inject_Z 1)%Q) by (vm_compute; discriminate).
  assert (H3 : (inject_Z 0 <= 0.5)%Q) by (vm_compute; discriminate).
  split; [exact H1 |]. split; [exact H2 |].
  exact (proj2 (sample_to_int16_error 0.5 H1 H2) H3).
Defined.


(** ** The sort and the renderer *)

Lemma stable_sort_refl (l : list FilterConfig) :
  StronglySorted freq_le l -> stable_sort_by_freq l l.
Proof. intros Hs. split; [reflexivity |]. split; [exact Hs | reflexivity]. Qed.

(** The sort leaves a list that is ascending by [freq] as it is, so sorting
    twice is sorting once; the list [filters] ships ascending, and its
    stages are chained in the order of the file. *)
Theorem Array_sort_sorted_fixed :
  (forall l, StronglySorted freq_le l -> Array_sort by_freq l = l)
  /\ (forall l, Array_sort by_freq (Array_sort by_freq l) = Array_sort by_freq l)
  /\ Array_sort by_freq filters = filters.
Proof.
  assert (Hfix : forall l, StronglySorted freq_le l -> Array_sort by_freq l = l).
  { intros l Hs.
    destruct (Array_sort_by_freq l) as (Hp & Hs' & Hf).
    apply sorted_stable_unique; assumption. }
  split; [exact Hfix |]. split; [| reflexivity].
  intros l. apply Hfix, Array_sort_sorted.
Qed.

(** A run never changes or removes an array of the store: it adds one
    array, the sorted copy, when the context is constructed, and none when
    the constructor throws. *)
Theorem processAudio_store `{WebAudio} (audioBuffer : AudioBuffer) (σ : Store) :
  σ ⊆ (processAudio audioBuffer σ).2
  /\ base.size (processAudio audioBuffer σ).2
     = base.size σ + (if supports (numberOfChannels audioBuffer) (buffer_length audioBuffer)
                      (buffer_sampleRate audioBuffer) then 1 else 0).
Proof.
  destruct (supports _ _ _) eqn:Hs.
  - rewrite processAudio_supported by assumption. cbn [snd].
    pose proof (lookup_fresh_dom σ) as Hn. split.
    + now apply insert_subseteq.
    + rewrite map_size_insert_None by assumption. lia.
  - rewrite processAudio_unsupported by assumption. cbn [snd]. split; [reflexivity | lia].
Qed.

(** With an empty array [filters] the source is connected to the
    destination and the rendering of a well-formed buffer is the buffer. *)
Theorem processAudio_no_filters `{WebAudio} (audioBuffer : AudioBuffer) (σ : Store) :
  σ !! filters_ref = Some [] ->
  supports (numberOfChannels audioBuffer) (buffer_length audioBuffer)
    (buffer_sampleRate audioBuffer) = true ->
  wf_buffer audioBuffer ->
  (processAudio audioBuffer σ).1 = Ok audioBuffer.
Proof.
  intros Hf Hs Hwf. rewrite processAudio_supported by assumption. cbn [fst].
  assert (E : Array_sort by_freq (array_contents filters_ref σ) = [])
    by (unfold array_contents; rewrite Hf; reflexivity).
  rewrite E.
  destruct (startRendering_audio_graph audioBuffer [])
    as (out & -> & _ & Hl & Hr & _ & Hch).
  f_equal. specialize (Hch Hwf).
  unfold cascade in Hch. cbn [fold_left] in Hch. rewrite map_id in Hch.
  destruct out, audioBuffer. cbn in *. congruence.
Qed.

Lemma processAudio_no_filters_witness :
  (<[filters_ref := []]> initial_store : Store) !! filters_ref = Some []
  /\ supports 2 3 44100 = true
  /\ wf_buffer demo_buffer
  /\ (processAudio demo_buffer (<[filters_ref := []]> initial_store)).1 = Ok demo_buffer.
Proof.
  assert (Hf : (<[filters_ref := []]> initial_store : Store) !! filters_ref = Some [])
    by reflexivity.
  assert (Hs : supports 2 3 44100 = true) by reflexivity.
  assert (Hwf : wf_buffer demo_buffer) by (repeat constructor).
  split; [exact Hf |]. split; [exact Hs |]. split; [exact Hwf |].
  exact (processAudio_no_filters demo_buffer _ Hf Hs Hwf).
Defined.

(** The rendered buffer is well formed, whatever the channels of the input
    hold: each of its channels has the frame count of the buffer, which is
    what the encoder relies on. *)
Theorem processAudio_well_formed `{WebAudio} (audioBuffer : AudioBuffer) (σ : Store) :
  forall out, (processAudio audioBuffer σ).1 = Ok out -> wf_buffer out.
Proof.
  intros out Hout.
  destruct (supports (numberOfChannels audioBuffer) (buffer_length audioBuffer)
              (buffer_sampleRate audioBuffer)) eqn:Hs.
  - rewrite processAudio_supported in Hout by assumption. cbn [fst] in Hout.
    destruct (startRendering_audio_graph audioBuffer
                (Array_sort by_freq (array_contents filters_ref σ)))
      as (out' & Hout' & _ & _ & _ & Hwf & _).
    congruence.
  - rewrite processAudio_unsupported in Hout by assumption. discriminate.
Qed.

Lemma processAudio_well_formed_witness :
  exists out, (processAudio demo_buffer initial_store).1 = Ok out /\ wf_buffer out.
Proof.
  eexists. split; [reflexivity |].
  exact (processAudio_well_formed demo_buffer initial_store _ eq_refl).
Defined.

(** Each rendered channel depends on the input channel of its index alone:
    it is that channel through the cascade. Two equal input channels give
    two equal output channels. *)
Theorem processAudio_channel_independence `{WebAudio} (audioBuffer : AudioBuffer)
    (σ : Store) :
  supports (numberOfChannels audioBuffer) (buffer_length audioBuffer)
    (buffer_sampleRate audioBuffer) = true ->
  wf_buffer audioBuffer ->
  exists out,
    (processAudio audioBuffer σ).1 = Ok out
    /\ (forall c ch, buffer_channels audioBuffer !! c = Some ch ->
          buffer_channels out !! c
          = Some (cascade (buffer_sampleRate audioBuffer)
                    (Array_sort by_freq (array_contents filters_ref σ)) ch))
    /\ (forall c c', c < numberOfChannels audioBuffer -> c' < numberOfChannels audioBuffer ->
          buffer_channels audioBuffer !! c = buffer_channels audioBuffer !! c' ->
          buffer_channels out !! c = buffer_channels out !! c').
Proof.
  intros Hs Hwf. rewrite processAudio_supported by assumption. cbn [fst].
  destruct (startRendering_audio_graph audioBuffer
              (Array_sort by_freq (array_contents filters_ref σ)))
    as (out & Hout & _ & _ & _ & _ & Hch).
  exists out. split; [exact Hout |]. specialize (Hch Hwf).
  assert (Hone : forall c ch, buffer_channels audioBuffer !! c = Some ch ->
            buffer_channels out !! c
            = Some (cascade (buffer_sampleRate audioBuffer)
                      (Array_sort by_freq (array_contents filters_ref σ)) ch)).
  { intros c ch Hc. rewrite Hch. now apply lookup_map. }
  split; [exact Hone |].
  intros c c' Hc Hc' Heq.
  destruct (lookup_lt_is_Some_2 (buffer_channels audioBuffer) c Hc) as [ch Hch1].
  rewrite (Hone c ch Hch1). rewrite Heq in Hch1. now rewrite (Hone c' ch Hch1).
Qed.

Lemma processAudio_channel_independence_witness :
  supports 2 2 44100 = true
  /\ wf_buffer twin_buffer
  /\ exists out,
       (processAudio twin_buffer initial_store).1 = Ok out
       /\ buffer_channels out !! 0 = buffer_channels out !! 1.
Proof.
  assert (Hs : supports 2 2 44100 = true) by reflexivity.
  assert (Hwf : wf_buffer twin_buffer) by (repeat constructor).
  split; [exact Hs |]. split; [exact Hwf |].
  destruct (processAudio_channel_independence twin_buffer initial_store Hs Hwf)
    as (out & Hout & _ & Heq).
  exists out. split; [exact Hout |].
  apply Heq; [cbn; lia | cbn; lia | reflexivity].
Defined.


(** ** The handlers *)








(** The type gate comes first: the handler ends with the type message, and
    with nothing else changed, exactly for the files whose MIME type is not
    one of the ten of the list, whatever their size; a drop with no file
    only clears the highlight and the message. *)
Theorem handleDrop_type_gate `{WebAudio} (file : File) (st : ComponentState) (σ : Store) :
  (handleDrop (Some file) st σ = (type_rejected st, σ, None) <->
   includes SUPPORTED_AUDIO_TYPES (file_type file) = false)
  /\ handleDrop None st σ = (setError (setIsDragging st false) "", σ, None).
Proof.
  split; [| reflexivity]. split.
  - intros E. destruct (includes SUPPORTED_AUDIO_TYPES (file_type file)) eqn:Ht;
      [| reflexivity].
    exfalso. apply (f_equal (fun r => error r.1.1)) in E. revert E.
    unfold handleDrop. rewrite Ht. cbn [negb].
    destruct (size file >? MAX_FILE_SIZE)%Z; [discriminate |].
    destruct (arrayBuffer file) as [bytes|]; [| discriminate].
    destruct (decodeAudioData bytes) as [audioBuffer|]; [| discriminate].
    destruct (processAudio audioBuffer σ) as [[processedBuffer|e] σ']; [| discriminate].
    destruct (audioBufferToWav processedBuffer); discriminate.
  - intros Ht. unfold handleDrop. now rewrite Ht.
Qed.

(** ** The name of the download, further *)

Lemma newFileName_dot (stem ext : string) :
  contains "." ext = false ->
  newFileName (stem ++ String "." ext) = (stem ++ "-EQ" ++ String "." ext)%string.
Proof.
  intros Hext. unfold newFileName, lastIndexOf.
  rewrite lastIndexOf_from_last by assumption. cbn [Nat.add].
  destruct (Z.eqb_spec (Z.of_nat (String.length stem)) (-1)) as [E | _]; [lia |].
  cbn [negb]. rewrite Nat2Z.id. unfold slice_to, slice_from.
  rewrite substring_prefix, substring_suffix, length_append.
  replace (_ + _ - _) with (String.length (String "." ext)) by lia.
  now rewrite substring_all.
Qed.

Lemma newFileName_no_dot (name : string) :
  contains "." name = false -> newFileName name = (name ++ "-EQ")%string.
Proof.
  intros Hname. unfold newFileName, lastIndexOf. now rewrite lastIndexOf_from_absent.
Qed.

Lemma contains_append (c : ascii) (a b : string) :
  contains c (a ++ b) = (contains c a || contains c b)%bool.
Proof.
  unfold contains. induction a as [|x a IH]; rewrite ?append_nil_l, ?append_cons;
    cbn [list_ascii_of_string existsb]; [reflexivity |].
  now rewrite IH, orb_assoc.
Qed.

Lemma contains_cons (c : ascii) (e : string) : contains c (String c e) = true.
Proof. unfold contains. cbn [list_ascii_of_string existsb]. now rewrite Ascii.eqb_refl. Qed.

Lemma append_cancel_r (a b c : string) : (a ++ c = b ++ c)%string -> a = b.
Proof.
  revert b. induction a as [|x a IH]; intros [|y b]; rewrite ?append_nil_l, ?append_cons;
    intros E.
  - reflexivity.
  - apply (f_equal String.length) in E. cbn [String.length] in E.
    rewrite length_append in E. lia.
  - apply (f_equal String.length) in E. cbn [String.length] in E.
    rewrite length_append in E. lia.
  - injection E as -> E. f_equal. now apply IH.
Qed.

Lemma last_occurrence_unique (c : ascii) (s1 s2 e1 e2 : string) :
  (s1 ++ String c e1 = s2 ++ String c e2)%string ->
  contains c e1 = false -> contains c e2 = false ->
  s1 = s2 /\ e1 = e2.
Proof.
  revert s2. induction s1 as [|x s1 IH]; intros [|y s2];
    rewrite ?append_nil_l, ?append_cons; intros E H1 H2.
  - injection E as ->. now split.
  - injection E as -> ->. rewrite contains_append, contains_cons, orb_true_r in H1.
    discriminate.
  - injection E as -> <-. rewrite contains_append, contains_cons, orb_true_r in H2.
    discriminate.
  - injection E as -> E. destruct (IH s2 E H1 H2) as [-> ->]. now split.
Qed.

(** Two different file names never get the same download name, and the
    download name is three characters longer than the name of the file. *)
Theorem newFileName_injective :
  (forall a b : string, newFileName a = newFileName b -> a = b)
  /\ (forall name : string,
        String.length (newFileName name) = String.length name + 3).
Proof.
  split.
  - intros a b E.
    destruct (contains "." a) eqn:Ha, (contains "." b) eqn:Hb.
    + apply contains_split in Ha as (s1 & e1 & -> & He1).
      apply contains_split in Hb as (s2 & e2 & -> & He2).
      rewrite !newFileName_dot in E by assumption.
      change (?s ++ "-EQ" ++ String "." ?e)%string
        with (s ++ String "-" (String "E" (String "Q" (String "." e))))%string in E.
      assert (E' : ((s1 ++ "-EQ") ++ String "." e1 = (s2 ++ "-EQ") ++ String "." e2)%string).
      { clear -E. revert E.
        assert (Hassoc : forall s e, ((s ++ "-EQ") ++ String "." e
                  = s ++ String "-" (String "E" (String "Q" (String "." e))))%string).
        { intros s e. induction s as [|x s IH]; rewrite ?append_nil_l, ?append_cons;
            [reflexivity | now rewrite IH]. }
        now rewrite !Hassoc. }
      destruct (last_occurrence_unique "." _ _ _ _ E' He1 He2) as [Es ->].
      now rewrite (append_cancel_r _ _ _ Es).
    + exfalso. apply contains_split in Ha as (s1 & e1 & -> & He1).
      rewrite newFileName_dot in E by assumption. rewrite newFileName_no_dot in E by assumption.
      apply (f_equal (contains ".")) in E.
      rewrite !contains_append, Hb in E.
      change ("-EQ" ++ String "." e1)%string with (String "-" (String "E" (String "Q" (String "." e1)))) in E.
      unfold contains at 2 3 in E. cbn in E. rewrite orb_true_r in E. discriminate.
    + exfalso. apply contains_split in Hb as (s2 & e2 & -> & He2).
      rewrite newFileName_dot in E by assumption. rewrite newFileName_no_dot in E by assumption.
      apply (f_equal (contains ".")) in E.
      rewrite !contains_append, Ha in E.
      change ("-EQ" ++ String "." e2)%string with (String "-" (String "E" (String "Q" (String "." e2)))) in E.
      unfold contains at 1 3 in E. cbn in E. rewrite orb_true_r in E. discriminate.
    + rewrite !newFileName_no_dot in E by assumption. now apply append_cancel_r in E.
  - intros name. destruct (contains "." name) eqn:Hn.
    + apply contains_split in Hn as (s & e & -> & He).
      rewrite newFileName_dot by assumption.
      rewrite !length_append. cbn [String.length]. lia.
    + rewrite newFileName_no_dot by assumption. rewrite length_append. reflexivity.
Qed.
